(** * The catalog view controller of [static/app.js]

    A shallow embedding of the browser-side controller: the JavaScript
    values it handles, the DOM it mutates, the requests it sends, and the
    five functions [load], [addCategory], [deleteCategory], [addItem] and
    [deleteItem], followed by the properties the specification states
    about them. *)

From Stdlib Require Import String Ascii NArith Lia.
From Stdlib Require DecimalString DecimalN DecimalPos DecimalFacts.
From stdpp Require Import base option list strings numbers sorting.

Set Warnings "-register-all".

Open Scope string_scope.
Open Scope list_scope.

(** ** JavaScript values *)

Module JS.

(** An item of the catalog: [{name, url}]. *)
Record Item : Type := { name : string; url : string }.

(** An ordinary object restricted to its own enumerable string-keyed data
    properties, kept in order of property creation. *)
Definition object (V : Type) : Type := list (string * V).

Definition digit_of (c : ascii) : option N :=
  let n := N_of_ascii c in
  if ((48 <=? n) && (n <=? 57))%N then Some (n - 48)%N else None.

Fixpoint parse_digits (acc : N) (s : string) : option N :=
  match s with
  | EmptyString => Some acc
  | String c s' =>
      match digit_of c with
      | Some d => parse_digits (10 * acc + d)%N s'
      | None => None
      end
  end.

(** A property key is an array index when it is the canonical decimal
    form of an integer in [0, 2^32 - 2]. *)
Definition array_index (key : string) : option N :=
  match key with
  | EmptyString => None
  | String c rest =>
      if Ascii.eqb c "0"%char then
        (if String.eqb rest "" then Some 0%N else None)
      else
        match parse_digits 0 key with
        | Some n => if (n <=? 4294967294)%N then Some n else None
        | None => None
        end
  end.

Definition is_array_index (key : string) : bool :=
  match array_index key with Some _ => true | None => false end.

Section Objects.
Context {V : Type}.

(** [CreateDataProperty(o, key, v)]: an existing property keeps its
    place and takes the new value, a new one is created last. *)
Fixpoint CreateDataProperty (o : object V) (key : string) (v : V) : object V :=
  match o with
  | [] => [(key, v)]
  | (k, w) :: o' =>
      if String.eqb k key then (k, v) :: o'
      else (k, w) :: CreateDataProperty o' key v
  end.

(** Array-index keys are enumerated in ascending numeric order. *)
Fixpoint insert_index (n : N) (p : string * V) (l : list (N * (string * V)))
  : list (N * (string * V)) :=
  match l with
  | [] => [(n, p)]
  | (m, q) :: l' =>
      if (n <? m)%N then (n, p) :: (m, q) :: l'
      else (m, q) :: insert_index n p l'
  end.

Fixpoint index_properties (o : object V) : list (N * (string * V)) :=
  match o with
  | [] => []
  | (k, v) :: o' =>
      match array_index k with
      | Some n => insert_index n (k, v) (index_properties o')
      | None => index_properties o'
      end
  end.

Fixpoint named_properties (o : object V) : list (string * V) :=
  match o with
  | [] => []
  | (k, v) :: o' =>
      if is_array_index k then named_properties o'
      else (k, v) :: named_properties o'
  end.

(** [Object.entries(o)]: the order of [OrdinaryOwnPropertyKeys], array
    indices first in ascending order, then the other keys in order of
    creation. *)
Definition Object_entries (o : object V) : list (string * V) :=
  map snd (index_properties o) ++ named_properties o.

(** The object [JSON.parse] builds from the members of a JSON object,
    taken in the order of the text. *)
Definition JSON_parse_object (members : list (string * V)) : object V :=
  fold_left (fun o m => CreateDataProperty o (fst m) (snd m)) members [].
End Objects.

(** [QuoteJSONString] on a string held as UTF-8 bytes. *)
Definition hex_digit (n : N) : ascii :=
  if (n <? 10)%N then ascii_of_N (48 + n) else ascii_of_N (87 + n).

Definition dquote : ascii := "034"%char.
Definition backslash : ascii := "092"%char.

Definition quote_char (c : ascii) : string :=
  let n := N_of_ascii c in
  if (n =? 34)%N then String backslash (String dquote "")
  else if (n =? 92)%N then String backslash (String backslash "")
  else if (n =? 8)%N then String backslash "b"
  else if (n =? 12)%N then String backslash "f"
  else if (n =? 10)%N then String backslash "n"
  else if (n =? 13)%N then String backslash "r"
  else if (n =? 9)%N then String backslash "t"
  else if (n <? 32)%N then
    String backslash
      ("u00" +:+ String (hex_digit (n / 16)) (String (hex_digit (n mod 16)) ""))
  else String c "".

Fixpoint quote_chars (s : string) : string :=
  match s with
  | EmptyString => ""
  | String c s' => quote_char c +:+ quote_chars s'
  end.

Definition QuoteJSONString (s : string) : string :=
  String dquote (quote_chars s +:+ String dquote "").

(** [JSON.stringify] of an object whose property values are strings. *)
Fixpoint join_members (ms : list (string * string)) : string :=
  match ms with
  | [] => ""
  | [(k, v)] => QuoteJSONString k +:+ ":" +:+ QuoteJSONString v
  | (k, v) :: ms' =>
      QuoteJSONString k +:+ ":" +:+ QuoteJSONString v +:+ "," +:+ join_members ms'
  end.

Definition JSON_stringify (o : object string) : string :=
  "{" +:+ join_members (Object_entries o) +:+ "}".

(** The reading of what [JSON_stringify] writes: used to say what a body
    carries, and by the model of the server to read it. *)
Definition snoc (s : string) (c : ascii) : string := s +:+ String c "".

Fixpoint strip_prefix (p s : string) : option string :=
  match p with
  | EmptyString => Some s
  | String a p' =>
      match s with
      | String b s' => if Ascii.eqb a b then strip_prefix p' s' else None
      | EmptyString => None
      end
  end.

Definition hex_value (c : ascii) : option N :=
  let n := N_of_ascii c in
  if ((48 <=? n) && (n <=? 57))%N then Some (n - 48)%N
  else if ((97 <=? n) && (n <=? 102))%N then Some (n - 87)%N
  else None.

(** Reads a JSON string up to its closing quote: the text and what
    follows. Only the escapes [QuoteJSONString] writes for bytes are
    read. *)
Fixpoint unquote (s acc : string) : option (string * string) :=
  match s with
  | EmptyString => None
  | String c s' =>
      if Ascii.eqb c dquote then Some (acc, s')
      else if Ascii.eqb c backslash then
        match s' with
        | String e s'' =>
            if Ascii.eqb e dquote then unquote s'' (snoc acc dquote)
            else if Ascii.eqb e backslash then unquote s'' (snoc acc backslash)
            else if Ascii.eqb e "b" then unquote s'' (snoc acc "008"%char)
            else if Ascii.eqb e "f" then unquote s'' (snoc acc "012"%char)
            else if Ascii.eqb e "n" then unquote s'' (snoc acc "010"%char)
            else if Ascii.eqb e "r" then unquote s'' (snoc acc "013"%char)
            else if Ascii.eqb e "t" then unquote s'' (snoc acc "009"%char)
            else if Ascii.eqb e "u" then
              match s'' with
              | String h1 (String h2 (String h3 (String h4 s3))) =>
                  match hex_value h3, hex_value h4 with
                  | Some a, Some b =>
                      if Ascii.eqb h1 "0" && Ascii.eqb h2 "0" then
                        unquote s3 (snoc acc (ascii_of_N (16 * a + b)))
                      else None
                  | _, _ => None
                  end
              | _ => None
              end
            else None
        | EmptyString => None
        end
      else unquote s' (snoc acc c)
  end.

(** Reads the object with exactly the given names, in their order, as
    [JSON.stringify] writes it. *)
Fixpoint read_members (first : bool) (keys : list string) (s : string)
  : option (list string) :=
  match keys with
  | [] => if String.eqb s "}" then Some [] else None
  | k :: keys' =>
      match
        strip_prefix
          ((if first then "{" else ",") +:+ QuoteJSONString k +:+ ":"
           +:+ String dquote "") s
      with
      | Some s1 =>
          match unquote s1 "" with
          | Some (v, s2) =>
              match read_members false keys' s2 with
              | Some vs => Some (v :: vs)
              | None => None
              end
          | None => None
          end
      | None => None
      end
  end.

End JS.

(** ** The HTML fragment parser behind [innerHTML]

    A model of what the browser does with the markup assigned to
    [li.innerHTML]: the tokenizer states of the HTML standard that plain
    tags, attributes and text go through, and the tree construction for
    properly nested formatting elements. The model is partial: it answers
    [None] on markup it does not cover (character references, comments,
    NUL and CR, block-level or misnested tags) and never guesses. *)

Module HTML.

Inductive node : Type :=
| Text (data : string)
| Element (tag : string) (attrs : list (string * string)) (children : list node).

Inductive token : Type :=
| Character (c : ascii)
| StartTag (tag : string) (attrs : list (string * string))
| EndTag (tag : string).

(** The tag token under construction. *)
Record tag_token : Type := {
  is_end : bool;
  tag_name : string;
  attributes : list (string * string)
}.

Inductive state : Type :=
| Data
| TagOpen
| EndTagOpen
| TagName (t : tag_token)
| BeforeAttributeName (t : tag_token)
| AttributeName (t : tag_token) (n : string)
| AfterAttributeName (t : tag_token) (n : string)
| BeforeAttributeValue (t : tag_token) (n : string)
| AttributeValueDoubleQuoted (t : tag_token) (n v : string)
| AttributeValueSingleQuoted (t : tag_token) (n v : string)
| AttributeValueUnquoted (t : tag_token) (n v : string)
| AfterAttributeValueQuoted (t : tag_token)
| SelfClosingStartTag (t : tag_token).

Definition code (c : ascii) : N := N_of_ascii c.

Definition is_whitespace (c : ascii) : bool :=
  let n := code c in ((n =? 9) || (n =? 10) || (n =? 12) || (n =? 32))%N.

Definition is_upper (c : ascii) : bool :=
  let n := code c in ((65 <=? n) && (n <=? 90))%N.

Definition is_alpha (c : ascii) : bool :=
  let n := code c in
  (((65 <=? n) && (n <=? 90)) || ((97 <=? n) && (n <=? 122)))%N.

Definition lower (c : ascii) : ascii :=
  if is_upper c then ascii_of_N (code c + 32) else c.

(** NUL and CR are outside the model. *)
Definition unmodelled (c : ascii) : bool :=
  let n := code c in ((n =? 0) || (n =? 13))%N.

Definition has_attribute (n : string) (attrs : list (string * string)) : bool :=
  existsb (fun p => String.eqb (fst p) n) attrs.

(** An attribute whose name the tag already has is dropped. *)
Definition add_attribute (t : tag_token) (n v : string) : tag_token :=
  {| is_end := is_end t; tag_name := tag_name t;
     attributes := if has_attribute n (attributes t) then attributes t
                   else attributes t ++ [(n, v)] |}.

Definition emit_tag (t : tag_token) : token :=
  if is_end t then EndTag (tag_name t) else StartTag (tag_name t) (attributes t).

Definition new_tag (e : bool) (c : ascii) : tag_token :=
  {| is_end := e; tag_name := String (lower c) ""; attributes := [] |}.

Definition amp : ascii := "038"%char.
Definition lt : ascii := "060"%char.
Definition gt : ascii := "062"%char.
Definition slash : ascii := "047"%char.
Definition equals : ascii := "061"%char.
Definition squote : ascii := "039"%char.
Definition bang : ascii := "033"%char.
Definition question : ascii := "063"%char.

Definition data_step (c : ascii) : option (list token * state) :=
  if Ascii.eqb c lt then Some ([], TagOpen)
  else if Ascii.eqb c amp then None
  else Some ([Character c], Data).

Definition before_attribute_name_step (t : tag_token) (c : ascii)
  : option (list token * state) :=
  if is_whitespace c then Some ([], BeforeAttributeName t)
  else if Ascii.eqb c slash then Some ([], SelfClosingStartTag t)
  else if Ascii.eqb c gt then Some ([emit_tag t], Data)
  else Some ([], AttributeName t (String (lower c) "")).

Definition step (st : state) (c : ascii) : option (list token * state) :=
  if unmodelled c then None else
  match st with
  | Data => data_step c
  | TagOpen =>
      if Ascii.eqb c bang then None
      else if Ascii.eqb c question then None
      else if Ascii.eqb c slash then Some ([], EndTagOpen)
      else if is_alpha c then Some ([], TagName (new_tag false c))
      else match data_step c with
           | Some (ts, st') => Some (Character lt :: ts, st')
           | None => None
           end
  | EndTagOpen =>
      if is_alpha c then Some ([], TagName (new_tag true c))
      else if Ascii.eqb c gt then Some ([], Data)
      else None
  | TagName t =>
      if is_whitespace c then Some ([], BeforeAttributeName t)
      else if Ascii.eqb c slash then Some ([], SelfClosingStartTag t)
      else if Ascii.eqb c gt then Some ([emit_tag t], Data)
      else Some ([], TagName {| is_end := is_end t;
                                tag_name := JS.snoc (tag_name t) (lower c);
                                attributes := attributes t |})
  | BeforeAttributeName t => before_attribute_name_step t c
  | AttributeName t n =>
      if is_whitespace c then Some ([], AfterAttributeName t n)
      else if Ascii.eqb c slash then
        Some ([], SelfClosingStartTag (add_attribute t n ""))
      else if Ascii.eqb c gt then Some ([emit_tag (add_attribute t n "")], Data)
      else if Ascii.eqb c equals then Some ([], BeforeAttributeValue t n)
      else Some ([], AttributeName t (JS.snoc n (lower c)))
  | AfterAttributeName t n =>
      if is_whitespace c then Some ([], AfterAttributeName t n)
      else if Ascii.eqb c slash then
        Some ([], SelfClosingStartTag (add_attribute t n ""))
      else if Ascii.eqb c equals then Some ([], BeforeAttributeValue t n)
      else if Ascii.eqb c gt then Some ([emit_tag (add_attribute t n "")], Data)
      else Some ([], AttributeName (add_attribute t n "") (String (lower c) ""))
  | BeforeAttributeValue t n =>
      if is_whitespace c then Some ([], BeforeAttributeValue t n)
      else if Ascii.eqb c JS.dquote then
        Some ([], AttributeValueDoubleQuoted t n "")
      else if Ascii.eqb c squote then
        Some ([], AttributeValueSingleQuoted t n "")
      else if Ascii.eqb c gt then Some ([emit_tag (add_attribute t n "")], Data)
      else if Ascii.eqb c amp then None
      else Some ([], AttributeValueUnquoted t n (String c ""))
  | AttributeValueDoubleQuoted t n v =>
      if Ascii.eqb c JS.dquote then
        Some ([], AfterAttributeValueQuoted (add_attribute t n v))
      else if Ascii.eqb c amp then None
      else Some ([], AttributeValueDoubleQuoted t n (JS.snoc v c))
  | AttributeValueSingleQuoted t n v =>
      if Ascii.eqb c squote then
        Some ([], AfterAttributeValueQuoted (add_attribute t n v))
      else if Ascii.eqb c amp then None
      else Some ([], AttributeValueSingleQuoted t n (JS.snoc v c))
  | AttributeValueUnquoted t n v =>
      if is_whitespace c then Some ([], BeforeAttributeName (add_attribute t n v))
      else if Ascii.eqb c amp then None
      else if Ascii.eqb c gt then Some ([emit_tag (add_attribute t n v)], Data)
      else Some ([], AttributeValueUnquoted t n (JS.snoc v c))
  | AfterAttributeValueQuoted t => before_attribute_name_step t c
  | SelfClosingStartTag t =>
      if Ascii.eqb c gt then Some ([emit_tag t], Data)
      else before_attribute_name_step t c
  end.

(** At the end of the input an unfinished tag is dropped; a pending [<]
    or [</] is text. *)
Definition at_eof (st : state) : list token :=
  match st with
  | TagOpen => [Character lt]
  | EndTagOpen => [Character lt; Character slash]
  | _ => []
  end.

Fixpoint tokenize_from (st : state) (s : string) : option (list token) :=
  match s with
  | EmptyString => Some (at_eof st)
  | String c s' =>
      match step st c with
      | Some (ts, st') =>
          match tokenize_from st' s' with
          | Some rest => Some (ts ++ rest)
          | None => None
          end
      | None => None
      end
  end.

Definition tokenize (s : string) : option (list token) := tokenize_from Data s.

(** Tree construction in the "in body" insertion mode, for the formatting
    elements and proper nesting. Under proper nesting every entry of the
    list of active formatting elements is an open element, so nothing is
    ever reconstructed and an end tag pops the current node. *)
Definition formatting : list string :=
  ["b"; "big"; "code"; "em"; "font"; "i"; "s"; "small"; "strike"; "strong";
   "tt"; "u"].

(** An open element: its tag and attributes, and the children its parent
    had before it, latest first. *)
Record frame : Type := {
  open_tag : string;
  open_attrs : list (string * string);
  before : list node
}.

Definition is_open (n : string) (stack : list frame) : bool :=
  existsb (fun f => String.eqb (open_tag f) n) stack.

Definition insertable (n : string) (stack : list frame) : bool :=
  existsb (String.eqb n) formatting
  || (String.eqb n "a" && negb (is_open "a" stack)).

(** A character joins the text node that ends the current node, or starts
    one. The children are kept latest first. *)
Definition insert_character (c : ascii) (kids : list node) : list node :=
  match kids with
  | Text s :: kids' => Text (JS.snoc s c) :: kids'
  | _ => Text (String c "") :: kids
  end.

Fixpoint close_all (stack : list frame) (kids : list node) : list node :=
  match stack with
  | [] => rev kids
  | f :: stack' =>
      close_all stack' (Element (open_tag f) (open_attrs f) (rev kids) :: before f)
  end.

Fixpoint build (ts : list token) (stack : list frame) (kids : list node)
  : option (list node) :=
  match ts with
  | [] => Some (close_all stack kids)
  | Character c :: ts' => build ts' stack (insert_character c kids)
  | StartTag n attrs :: ts' =>
      if insertable n stack then
        build ts' ({| open_tag := n; open_attrs := attrs; before := kids |} :: stack) []
      else None
  | EndTag n :: ts' =>
      match stack with
      | f :: stack' =>
          if String.eqb (open_tag f) n then
            build ts' stack' (Element n (open_attrs f) (rev kids) :: before f)
          else None
      | [] => None
      end
  end.

(** The children the fragment parser gives an element whose [innerHTML]
    is set to [markup]. *)
Definition parse_fragment (markup : string) : option (list node) :=
  match tokenize markup with
  | Some ts => build ts [] []
  | None => None
  end.

(** [textContent] of a parsed node. *)
Fixpoint text_content (n : node) : string :=
  match n with
  | Text s => s
  | Element _ _ kids =>
      (fix go (l : list node) : string :=
         match l with
         | [] => ""
         | k :: l' => text_content k +:+ go l'
         end) kids
  end.

Definition get_attribute (n : string) (attrs : list (string * string))
  : option string :=
  match find (fun p => String.eqb (fst p) n) attrs with
  | Some p => Some (snd p)
  | None => None
  end.

End HTML.

(** ** The document *)

Module DOM.

Abbreviation node_id := nat.

(** A value that is an element of the document or [null]. *)
Abbreviation reference := (option node_id).

(** The three arrow functions [load] assigns to [onclick], each with the
    variables it closes over. *)
Inductive handler : Type :=
| OnDeleteItem (cat : string) (item : JS.Item)
| OnAddItem (cat : string) (nameInput urlInput : reference)
| OnDeleteCategory (cat : string).

(** What an element holds in its child list: a text node, the nodes the
    fragment parser made of a markup string, or another element of the
    store. *)
Inductive child : Type :=
| TextNode (data : string)
| Parsed (markup : string)
| Ref (i : node_id).

Record element : Type := {
  tagName : string;
  id_attribute : string;
  placeholder : string;
  value : string;
  onclick : option handler;
  childNodes : list child
}.

(** The elements ever created, by order of creation; an element is named
    by its position. *)
Abbreviation store := (list element).

Definition blank (tag : string) : element :=
  {| tagName := tag; id_attribute := ""; placeholder := ""; value := "";
     onclick := None; childNodes := [] |}.

Definition with_children (kids : list child) (e : element) : element :=
  {| tagName := tagName e; id_attribute := id_attribute e;
     placeholder := placeholder e; value := value e; onclick := onclick e;
     childNodes := kids |}.

Definition with_placeholder (p : string) (e : element) : element :=
  {| tagName := tagName e; id_attribute := id_attribute e;
     placeholder := p; value := value e; onclick := onclick e;
     childNodes := childNodes e |}.

Definition with_value (v : string) (e : element) : element :=
  {| tagName := tagName e; id_attribute := id_attribute e;
     placeholder := placeholder e; value := v; onclick := onclick e;
     childNodes := childNodes e |}.

Definition with_onclick (h : handler) (e : element) : element :=
  {| tagName := tagName e; id_attribute := id_attribute e;
     placeholder := placeholder e; value := value e; onclick := Some h;
     childNodes := childNodes e |}.

Definition add_children (ks : list child) (e : element) : element :=
  with_children (childNodes e ++ ks) e.

(** Setting [textContent] leaves one text node, or none for the empty
    string; setting [innerHTML] leaves what the parser makes of the
    markup, nothing for the empty string. *)
Definition text_children (s : string) : list child :=
  if String.eqb s "" then [] else [TextNode s].

Definition markup_children (s : string) : list child :=
  if String.eqb s "" then [] else [Parsed s].

(** The first element carrying the id. Only elements of the page itself
    carry one: [load] sets none. What the fragment parser makes of an
    item's markup is not entered in the store, so an [id] written inside
    such markup is not looked at. *)
Fixpoint find_id (x : string) (d : store) (i : node_id) : reference :=
  match d with
  | [] => None
  | e :: d' => if String.eqb (id_attribute e) x then Some i else find_id x d' (S i)
  end.

End DOM.

Import JS DOM.

(** ** Requests *)

Record request : Type := {
  req_url : string;
  method : string;
  headers : list (string * string);
  body : option string
}.

(** The second argument of [fetch]. *)
Record init : Type := {
  init_method : string;
  init_headers : list (string * string);
  init_body : option string
}.

Definition no_init : init :=
  {| init_method := "GET"; init_headers := []; init_body := None |}.

Definition request_of (u : string) (i : init) : request :=
  {| req_url := u; method := init_method i; headers := init_headers i;
     body := init_body i |}.

(** A response, with its body held as what [json()] makes of it: the
    members of the JSON object in the order of the text, or [None] when
    the body is not JSON. A body that is JSON of another shape than the
    catalog is outside the model. *)
Record response : Type := {
  status : nat;
  payload : option (list (string * list Item))
}.

(** What a request carries under the given names, when its body is the
    JSON object of exactly these names. *)
Definition read_body (keys : list string) (r : request) : option (list string) :=
  match body r with
  | Some text => read_members true keys text
  | None => None
  end.

Inductive error : Type := TypeError | NetworkFailure | SyntaxError.

Inductive completion (A : Type) : Type :=
| Normal (a : A)
| Throw (e : error).
Arguments Normal {A} a.
Arguments Throw {A} e.

(** ** The controller *)

Section Controller.
(** The API behind [fetch]: from a request and the state of the remote
    side, a response or no response at all, and the next state. *)
Context {S : Type} (serve : request -> S -> option response * S).

Record world : Type := {
  document : store;
  remote : S;
  sent : list request;
  unhandled : list error
}.

Definition set_document (d : store) (w : world) : world :=
  {| document := d; remote := remote w; sent := sent w;
     unhandled := unhandled w |}.

(** A computation of the page: it runs on the world and completes
    normally or throws. An [async] function is run to its end, each
    [await] taken at once. *)
Definition M (A : Type) : Type := world -> completion A * world.

Definition ret {A} (a : A) : M A := fun w => (Normal a, w).

Definition throw {A} (e : error) : M A := fun w => (Throw e, w).

Definition bind {A B} (m : M A) (k : A -> M B) : M B :=
  fun w =>
    match m w with
    | (Normal a, w') => k a w'
    | (Throw e, w') => (Throw e, w')
    end.

#[global] Instance M_ret : MRet M := @ret.
#[global] Instance M_bind : MBind M := fun A B k m => bind m k.

(** A call whose promise nobody awaits: a rejection stays unhandled. *)
Definition unawaited (m : M unit) : M unit :=
  fun w =>
    match m w with
    | (Normal _, w') => (Normal tt, w')
    | (Throw e, w') =>
        (Normal tt, {| document := document w'; remote := remote w';
                       sent := sent w'; unhandled := unhandled w' ++ [e] |})
    end.

Fixpoint forEach {A} (l : list A) (f : A -> M unit) : M unit :=
  match l with
  | [] => ret tt
  | x :: l' => f x ;; forEach l' f
  end.

(** *** DOM operations *)

Definition getElementById (x : string) : M reference :=
  fun w => (Normal (find_id x (document w) 0), w).

Definition createElement (tag : string) : M reference :=
  fun w =>
    (Normal (Some (length (document w))),
     set_document (document w ++ [blank tag]) w).

(** A property write on [null] throws. *)
Definition update (r : reference) (f : element -> element) : M unit :=
  match r with
  | None => throw TypeError
  | Some i => fun w => (Normal tt, set_document (alter f i (document w)) w)
  end.

Definition set_innerHTML (r : reference) (s : string) : M unit :=
  update r (with_children (markup_children s)).

Definition set_textContent (r : reference) (s : string) : M unit :=
  update r (with_children (text_children s)).

Definition set_placeholder (r : reference) (s : string) : M unit :=
  update r (with_placeholder s).

Definition set_value (r : reference) (s : string) : M unit :=
  update r (with_value s).

Definition set_onclick (r : reference) (h : handler) : M unit :=
  update r (with_onclick h).

Definition get_value (r : reference) : M string :=
  match r with
  | None => throw TypeError
  | Some i =>
      fun w =>
        match document w !! i with
        | Some e => (Normal (value e), w)
        | None => (Throw TypeError, w)
        end
  end.

(** [parent.appendChild(c)], for a [c] that has no parent yet: every
    node [load] appends is one it has just created. *)
Definition appendChild (parent c : reference) : M unit :=
  match c with
  | None => throw TypeError
  | Some i => update parent (add_children [Ref i])
  end.

(** *** The network *)

(** The request is sent whatever comes back; no response at all
    rejects the promise. *)
Definition requested (req : request) (s' : S) (w : world) : world :=
  {| document := document w; remote := s'; sent := sent w ++ [req];
     unhandled := unhandled w |}.

Definition fetch (u : string) (i : init) : M response :=
  fun w =>
    let req := request_of u i in
    match serve req (remote w) with
    | (Some res, s') => (Normal res, requested req s' w)
    | (None, s') => (Throw NetworkFailure, requested req s' w)
    end.

Definition json (res : response) : M (object (list Item)) :=
  match payload res with
  | Some members => ret (JSON_parse_object members)
  | None => throw SyntaxError
  end.

Definition post (o : object string) : init :=
  {| init_method := "POST";
     init_headers := [("Content-Type", "application/json")];
     init_body := Some (JSON_stringify o) |}.

(** *** [static/app.js] *)

Definition quot : string := String dquote "".

(** The template literal of the item link. *)
Definition link_markup (item : Item) : string :=
  "<a href=" +:+ quot +:+ url item +:+ quot +:+ " target=" +:+ quot
  +:+ "_blank" +:+ quot +:+ ">" +:+ name item +:+ "</a>".

Definition render_item (cat : string) (list : reference) (item : Item) : M unit :=
  li ← createElement "li";
  set_innerHTML li (link_markup item);;
  del ← createElement "button";
  set_textContent del "Delete";;
  set_onclick del (OnDeleteItem cat item);;
  appendChild li del;;
  appendChild list li.

Definition render_category (container : reference)
    (entry : string * list Item) : M unit :=
  let '(cat, items) := entry in
  h ← createElement "h2";
  set_textContent h cat;;
  appendChild container h;;
  list ← createElement "ul";
  forEach items (render_item cat list);;
  appendChild container list;;
  nameInput ← createElement "input";
  set_placeholder nameInput "Name";;
  urlInput ← createElement "input";
  set_placeholder urlInput "URL";;
  addBtn ← createElement "button";
  set_textContent addBtn "Add";;
  set_onclick addBtn (OnAddItem cat nameInput urlInput);;
  appendChild container nameInput;;
  appendChild container urlInput;;
  appendChild container addBtn;;
  delCatBtn ← createElement "button";
  set_textContent delCatBtn "Delete Category";;
  set_onclick delCatBtn (OnDeleteCategory cat);;
  appendChild container delCatBtn.

Definition load : M unit :=
  res ← fetch "/api/data" no_init;
  data ← json res;
  container ← getElementById "content";
  set_innerHTML container "";;
  forEach (Object_entries data) (render_category container).

Definition addCategory : M unit :=
  input ← getElementById "new-cat";
  name ← get_value input;
  fetch "/api/add_category" (post [("name", name)]);;
  input' ← getElementById "new-cat";
  set_value input' "";;
  unawaited load.

Definition deleteCategory (name : string) : M unit :=
  fetch "/api/delete_category" (post [("name", name)]);;
  unawaited load.

Definition addItem (category name url : string) : M unit :=
  fetch "/api/add_item"
    (post [("category", category); ("name", name); ("url", url)]);;
  unawaited load.

Definition deleteItem (category name : string) : M unit :=
  fetch "/api/delete_item" (post [("category", category); ("name", name)]);;
  unawaited load.

(** Running a handler: the body of the arrow function. *)
Definition invoke (h : handler) : M unit :=
  match h with
  | OnDeleteItem cat item => deleteItem cat (JS.name item)
  | OnAddItem cat nameInput urlInput =>
      n ← get_value nameInput;
      u ← get_value urlInput;
      addItem cat n u
  | OnDeleteCategory cat => deleteCategory cat
  end.

(** A click on an element runs its [onclick], if it has one; the
    promise the handler returns is dropped. *)
Definition click (i : node_id) : M unit :=
  fun w =>
    match document w !! i with
    | Some e =>
        match onclick e with
        | Some h => unawaited (invoke h) w
        | None => (Normal tt, w)
        end
    | None => (Normal tt, w)
    end.

(** [window.onload = load]. *)
Definition window_onload : M unit := unawaited load.

End Controller.

(** ** The rendered tree *)

(** The subtree of the store below an element, as a value. *)
Inductive tree : Type :=
| TText (data : string)
| TParsed (markup : string)
| TElement (i : node_id) (e : element) (kids : list tree).

Definition child_tree (sub : node_id -> option tree) (c : child) : option tree :=
  match c with
  | TextNode s => Some (TText s)
  | Parsed m => Some (TParsed m)
  | Ref j => sub j
  end.

Fixpoint child_trees (sub : node_id -> option tree) (l : list child)
  : option (list tree) :=
  match l with
  | [] => Some []
  | c :: l' =>
      match child_tree sub c, child_trees sub l' with
      | Some t, Some ts => Some (t :: ts)
      | _, _ => None
      end
  end.

Fixpoint subtree (fuel : nat) (d : store) (i : node_id) : option tree :=
  match fuel with
  | 0 => None
  | Datatypes.S fuel' =>
      match d !! i with
      | None => None
      | Some e =>
          match child_trees (subtree fuel' d) (childNodes e) with
          | Some kids => Some (TElement i e kids)
          | None => None
          end
      end
  end.

(** What the page shows inside the element with the given id. A tree
    below an element is no deeper than the store is long. *)
Definition shown (x : string) (d : store) : option (list tree) :=
  match find_id x d 0 with
  | Some c =>
      match subtree (length d) d c with
      | Some (TElement _ _ kids) => Some kids
      | _ => None
      end
  | None => None
  end.

(** ** The store [load] leaves, in closed form *)

Definition h2_element (cat : string) : element :=
  with_children (text_children cat) (blank "h2").

Definition ul_element (lis : list node_id) : element :=
  with_children (map Ref lis) (blank "ul").

Definition li_element (item : Item) (del : node_id) : element :=
  with_children (markup_children (link_markup item) ++ [Ref del]) (blank "li").

Definition input_element (p : string) : element :=
  with_placeholder p (blank "input").

Definition button_element (label : string) (h : handler) : element :=
  with_onclick h (with_children (text_children label) (blank "button")).

(** The elements the item loop creates from position [base] on: for each
    item its [li], then its button. *)
Fixpoint item_elements (cat : string) (base : nat) (items : list Item)
  : list element :=
  match items with
  | [] => []
  | item :: items' =>
      li_element item (Datatypes.S base)
      :: button_element "Delete" (OnDeleteItem cat item)
      :: item_elements cat (2 + base) items'
  end.

Fixpoint li_ids (base : nat) (items : list Item) : list node_id :=
  match items with
  | [] => []
  | _ :: items' => base :: li_ids (2 + base) items'
  end.

(** Position of the name field of a category rendered from [base]. *)
Definition fields_at (base : nat) (items : list Item) : nat :=
  2 + base + 2 * length items.

Definition category_elements (base : nat) (entry : string * list Item)
  : list element :=
  let n := fields_at base (snd entry) in
  h2_element (fst entry)
  :: ul_element (li_ids (2 + base) (snd entry))
  :: item_elements (fst entry) (2 + base) (snd entry)
  ++ [ input_element "Name"; input_element "URL";
       button_element "Add" (OnAddItem (fst entry) (Some n) (Some (1 + n)));
       button_element "Delete Category" (OnDeleteCategory (fst entry)) ].

Definition category_children (base : nat) (entry : string * list Item)
  : list child :=
  let n := fields_at base (snd entry) in
  [Ref base; Ref (1 + base); Ref n; Ref (1 + n); Ref (2 + n); Ref (3 + n)].

Definition next_base (base : nat) (entry : string * list Item) : nat :=
  4 + fields_at base (snd entry).

Fixpoint catalog_elements (base : nat) (entries : list (string * list Item))
  : list element :=
  match entries with
  | [] => []
  | entry :: entries' =>
      category_elements base entry
      ++ catalog_elements (next_base base entry) entries'
  end.

Fixpoint catalog_children (base : nat) (entries : list (string * list Item))
  : list child :=
  match entries with
  | [] => []
  | entry :: entries' =>
      category_children base entry
      ++ catalog_children (next_base base entry) entries'
  end.







(** The request of [fetch('/api/data')]. *)
Definition data_request : request :=
  {| req_url := "/api/data"; method := "GET"; headers := []; body := None |}.

(** ** Markup *)

(** Characters the tokenizer takes as text in the data state, and as part
    of the value in a double-quoted attribute value. *)
Definition text_char (c : ascii) : bool :=
  negb (HTML.unmodelled c) && negb (Ascii.eqb c HTML.lt)
  && negb (Ascii.eqb c HTML.amp).

Definition value_char (c : ascii) : bool :=
  negb (HTML.unmodelled c) && negb (Ascii.eqb c dquote)
  && negb (Ascii.eqb c HTML.amp).

Fixpoint all_chars (p : ascii -> bool) (s : string) : bool :=
  match s with
  | EmptyString => true
  | String c s' => p c && all_chars p s'
  end.

Definition plain_text (s : string) : bool := all_chars text_char s.
Definition plain_value (s : string) : bool := all_chars value_char s.

(** A string without markup, as tokens and as the children it makes. *)
Fixpoint characters (s : string) : list HTML.token :=
  match s with
  | EmptyString => []
  | String c s' => HTML.Character c :: characters s'
  end.

Definition text_nodes (s : string) : list HTML.node :=
  if String.eqb s "" then [] else [HTML.Text s].

(** ** What the page shows, read off the tree *)

Record link : Type := { label : string; href : string; target : string }.

(** The link a markup string is rendered as: a single anchor with its
    text, its [href] and its [target]. *)
Definition link_of (markup : string) : option link :=
  match HTML.parse_fragment markup with
  | Some [HTML.Element tag attrs kids] =>
      if String.eqb tag "a" then
        match HTML.get_attribute "href" attrs, HTML.get_attribute "target" attrs with
        | Some h, Some t =>
            Some {| label := HTML.text_content (HTML.Element tag attrs kids);
                    href := h; target := t |}
        | _, _ => None
        end
      else None
  | _ => None
  end.

(** A row of an item list: the link its markup is rendered as, if it is
    one, and the caption of its button. *)
Record row : Type := { row_link : option link; row_control : string }.

(** What the container holds, as a reader of the page names it. *)
Inductive widget : Type :=
| Heading (text : string)
| ItemList (rows : list row)
| Field (hint : string)
| Control (caption : string).

(** The text directly inside an element. *)
Fixpoint text_of (ts : list tree) : string :=
  match ts with
  | [] => ""
  | TText s :: ts' => s +:+ text_of ts'
  | _ :: ts' => text_of ts'
  end.

Definition row_of (t : tree) : option row :=
  match t with
  | TElement _ li [TParsed m; TElement _ b caption] =>
      if String.eqb (tagName li) "li" && String.eqb (tagName b) "button" then
        Some {| row_link := link_of m; row_control := text_of caption |}
      else None
  | _ => None
  end.

Fixpoint rows_of (ts : list tree) : option (list row) :=
  match ts with
  | [] => Some []
  | t :: ts' =>
      match row_of t, rows_of ts' with
      | Some r, Some rs => Some (r :: rs)
      | _, _ => None
      end
  end.

Definition describe (t : tree) : option widget :=
  match t with
  | TElement _ e kids =>
      if String.eqb (tagName e) "h2" then Some (Heading (text_of kids))
      else if String.eqb (tagName e) "ul" then
        match rows_of kids with
        | Some rs => Some (ItemList rs)
        | None => None
        end
      else if String.eqb (tagName e) "input" then Some (Field (placeholder e))
      else if String.eqb (tagName e) "button" then Some (Control (text_of kids))
      else None
  | _ => None
  end.

Fixpoint described (ts : list tree) : option (list widget) :=
  match ts with
  | [] => Some []
  | t :: ts' =>
      match describe t, described ts' with
      | Some x, Some xs => Some (x :: xs)
      | _, _ => None
      end
  end.

(** What [load] makes of a category, whatever its items hold. *)
Definition rendered_row (item : Item) : row :=
  {| row_link := link_of (link_markup item); row_control := "Delete" |}.

















(** ** The API *)

Module API.

(** Modelled from the spec: the state of the server behind [/api/...],
    which is not among the sources. It is the catalog, a mapping from
    category names to ordered sequences of items, kept as the list of
    its categories. *)
Definition state : Type := list (string * list Item).

Definition has_category (c : string) (s : state) : bool :=
  existsb (fun e => String.eqb (fst e) c) s.

(** Modelled from the spec: adding a category. The name is the key of
    the mapping, so a name that is taken adds nothing. *)
Definition add_category (c : string) (s : state) : state :=
  if has_category c s then s else s ++ [(c, [])].

(** Modelled from the spec: deleting a category removes it with all the
    items it contains. *)
Definition delete_category (c : string) (s : state) : state :=
  List.filter (fun e => negb (String.eqb (fst e) c)) s.

(** Modelled from the spec: adding an item, at the end of the sequence
    of its category. *)
Definition add_item (c : string) (item : Item) (s : state) : state :=
  map (fun e => if String.eqb (fst e) c then (fst e, snd e ++ [item]) else e) s.

(** Modelled from the spec: deleting an item. The item is named by the
    pair of its category and its name, the name being the key within
    the category: what carries that name in that category goes, and
    nothing else. *)
Definition delete_item (c n : string) (s : state) : state :=
  map (fun e =>
         if String.eqb (fst e) c then
           (fst e, List.filter (fun item => negb (String.eqb (name item) n)) (snd e))
         else e) s.

Definition done : option response := Some {| status := 200; payload := None |}.
Definition refused : option response := Some {| status := 400; payload := None |}.

(** Modelled from the spec: the operations of the table of the API.
    [GET /api/data] answers with the catalog and changes nothing; each
    mutation is a [POST] whose JSON body names its target. What the
    specification leaves to the implementation, the response to a
    mutation, is a 200 that carries no catalog. *)
Definition serve (r : request) (s : state) : option response * state :=
  if String.eqb (method r) "GET" then
    if String.eqb (req_url r) "/api/data" then
      (Some {| status := 200; payload := Some s |}, s)
    else (Some {| status := 404; payload := None |}, s)
  else if negb (String.eqb (method r) "POST") then
    (Some {| status := 405; payload := None |}, s)
  else if String.eqb (req_url r) "/api/add_category" then
    match read_body ["name"] r with
    | Some [n] => (done, add_category n s)
    | _ => (refused, s)
    end
  else if String.eqb (req_url r) "/api/delete_category" then
    match read_body ["name"] r with
    | Some [n] => (done, delete_category n s)
    | _ => (refused, s)
    end
  else if String.eqb (req_url r) "/api/add_item" then
    match read_body ["category"; "name"; "url"] r with
    | Some [c; n; u] => (done, add_item c {| name := n; url := u |} s)
    | _ => (refused, s)
    end
  else if String.eqb (req_url r) "/api/delete_item" then
    match read_body ["category"; "name"] r with
    | Some [c; n] => (done, delete_item c n s)
    | _ => (refused, s)
    end
  else (Some {| status := 404; payload := None |}, s).

End API.

(** ** [load] *)

(** What the page shows in the container, as widgets. *)
Definition display (d : store) : option (list widget) :=
  match shown "content" d with
  | Some ts => described ts
  | None => None
  end.

(** The store after a rendering of [entries] into the container [c]. *)
Definition rendered (d : store) (c : node_id)
    (entries : list (string * list Item)) : store :=
  alter (with_children (catalog_children (length d) entries)) c d
  ++ catalog_elements (length d) entries.

(** ** Mutations *)

(** A [POST] of a JSON object. *)
Definition json_post (u : string) (o : object string) : request :=
  {| req_url := u; method := "POST";
     headers := [("Content-Type", "application/json")];
     body := Some (JSON_stringify o) |}.





(** The four mutations of the controller. *)
Inductive mutation : Type :=
| AddCategory
| DeleteCategory (name : string)
| AddItem (category name url : string)
| DeleteItem (category name : string).

(** The request of each mutation by the table of the API: its path, the
    method [POST], the JSON content type and the JSON body. The name of a
    new category is what the dedicated input holds. *)
Definition specified_request (m : mutation) (d : store) : option request :=
  match m with
  | AddCategory =>
      match find_id "new-cat" d 0 with
      | Some i =>
          match d !! i with
          | Some e => Some (json_post "/api/add_category" [("name", value e)])
          | None => None
          end
      | None => None
      end
  | DeleteCategory n => Some (json_post "/api/delete_category" [("name", n)])
  | AddItem c n u =>
      Some (json_post "/api/add_item" [("category", c); ("name", n); ("url", u)])
  | DeleteItem c n =>
      Some (json_post "/api/delete_item" [("category", c); ("name", n)])
  end.



(** The document once the request has resolved: [addCategory] clears
    its input. *)
Definition after_submit (m : mutation) (d : store) : store :=
  match m with
  | AddCategory =>
      match find_id "new-cat" d 0 with
      | Some i => alter (with_value "") i d
      | None => d
      end
  | _ => d
  end.

Definition perform {S : Type} (serve : request -> S -> option response * S)
    (m : mutation) : M (S := S) unit :=
  match m with
  | AddCategory => addCategory serve
  | DeleteCategory n => deleteCategory serve n
  | AddItem c n u => addItem serve c n u
  | DeleteItem c n => deleteItem serve c n
  end.

(** ** A page and three servers to run the controller on *)

(** A page with the two elements the controller looks up by id; the
    container still holds what an earlier rendering left. *)
Definition sample_page : store :=
  [ with_children [Ref 1; Ref 2; Ref 3] (blank "body");
    {| tagName := "input"; id_attribute := "new-cat"; placeholder := "";
       value := "Tools"; onclick := None; childNodes := [] |};
    with_children [TextNode "Add Category"] (blank "button");
    {| tagName := "div"; id_attribute := "content"; placeholder := "";
       value := ""; onclick := None; childNodes := [Ref 4] |};
    with_children [TextNode "Old"] (blank "h2") ].

Definition sample_world {S : Type} (s : S) : world :=
  {| document := sample_page; remote := s; sent := []; unhandled := [] |}.

(** No response ever arrives. *)
Definition offline (r : request) (s : unit) : option response * unit := (None, s).

(** Every response is a page of HTML. *)
Definition garbled (r : request) (s : unit) : option response * unit :=
  (Some {| status := 500; payload := None |}, s).

(** Answers [GET] with the catalog, and nothing else. *)
Definition read_only (r : request) (s : list (string * list Item))
  : option response * list (string * list Item) :=
  if String.eqb (method r) "GET" then
    (Some {| status := 200; payload := Some s |}, s)
  else (None, s).



(** ** Further observations *)


(** The decimal numeral of a number, as [ToString] writes an integer. *)
Definition numeral (n : N) : string :=
  DecimalString.NilZero.string_of_uint (N.to_uint n).





(** A character that is not a control character. *)
Definition printable (c : ascii) : bool := (32 <=? N_of_ascii c)%N.

(** A url that closes the [href] it is written into and goes on with a
    [target] of its own. *)
Definition retargeted (u v : string) : string :=
  u +:+ quot +:+ " target=" +:+ quot +:+ v.

(** A page with neither the container nor the input. *)
Definition bare_page : store := [blank "body"].

Definition bare_world {S : Type} (s : S) : world :=
  {| document := bare_page; remote := s; sent := []; unhandled := [] |}.



(** Answers [GET] with the catalog under the status of a failure. *)
Definition failing_with_catalog (r : request) (s : list (string * list Item))
  : option response * list (string * list Item) :=
  if String.eqb (method r) "GET" then
    (Some {| status := 500; payload := Some s |}, s)
  else (None, s).


(** The elements [load] creates: their tags, and which of them carry a
    handler. *)
Definition button_or_plain (e : element) : Prop :=
  In (tagName e) ["h2"; "ul"; "li"; "input"; "button"]
  /\ (onclick e = None <-> tagName e <> "button").


(** * Proofs *)

Section Rendering.
Context {S : Type} (serve : request -> S -> option response * S).
Implicit Types (w : world (S := S)) (d : store).

Lemma alter_at_end {A} (f : A -> A) (l : list A) (x : A) (xs : list A) :
  alter f (length l) (l ++ x :: xs) = l ++ f x :: xs.
Proof.
  rewrite <- (Nat.add_0_r (length l)), alter_app_r. reflexivity.
Qed.

Lemma add_children_app (ks ks' : list child) (e : element) :
  add_children ks' (add_children ks e) = add_children (ks ++ ks') e.
Proof. unfold add_children. simpl. by rewrite app_assoc. Qed.

Lemma alter_add_children (ks ks' : list child) (i : nat) d :
  alter (add_children ks') i (alter (add_children ks) i d)
  = alter (add_children (ks ++ ks')) i d.
Proof.
  rewrite list_alter_alter_eq. apply list_alter_ext; [|done].
  intros e _. apply add_children_app.
Qed.

(** One step of a computation at a time. *)
Lemma run_bind {A B} (m : M A) (k : A -> M B) w :
  (m ≫= k) w
  = match m w with
    | (Normal a, w') => k a w'
    | (Throw e, w') => (Throw e, w')
    end.
Proof. reflexivity. Qed.

Lemma run_createElement {B} tag (k : reference -> M B) w :
  (createElement tag ≫= k) w
  = k (Some (length (document w)))
      (set_document (document w ++ [blank tag]) w).
Proof. reflexivity. Qed.

Lemma run_update {B} i f (k : unit -> M B) w :
  (update (Some i) f ≫= k) w
  = k tt (set_document (alter f i (document w)) w).
Proof. reflexivity. Qed.

Lemma run_update_last i f w :
  update (Some i) f w = (Normal tt, set_document (alter f i (document w)) w).
Proof. reflexivity. Qed.

Lemma document_set d w : document (set_document d w) = d.
Proof. reflexivity. Qed.

Lemma set_document_twice d d' w :
  set_document d' (set_document d w) = set_document d' w.
Proof. reflexivity. Qed.

Lemma run_createElement_at {B} tag (k : reference -> M B) w n :
  length (document w) = n ->
  (createElement tag ≫= k) w
  = k (Some n) (set_document (document w ++ [blank tag]) w).
Proof. intros <-. reflexivity. Qed.

Lemma alter_last {A} (f : A -> A) (l : list A) (x : A) (i : nat) :
  i = length l -> alter f i (l ++ [x]) = l ++ [f x].
Proof. intros ->. apply alter_at_end. Qed.

Lemma length_item_elements cat base items :
  length (item_elements cat base items) = 2 * length items.
Proof.
  revert base. induction items as [|item items IH]; intros base; cbn.
  - reflexivity.
  - rewrite IH. lia.
Qed.

Ltac lengths :=
  repeat first
    [ rewrite document_set | rewrite length_app | rewrite length_alter
    | rewrite length_item_elements ];
  cbn [length].

(** Runs the next DOM operation and brings the store back to the
    shape [... ++ [e]], with positions as sums. *)
Ltac step :=
  unfold set_innerHTML, set_textContent, set_placeholder, set_onclick,
    appendChild;
  first
    [ erewrite run_createElement_at by (lengths; reflexivity)
    | rewrite run_update
    | rewrite run_update_last ];
  cbv beta;
  rewrite ?document_set, ?set_document_twice;
  try rewrite alter_last by (lengths; lia).

Lemma render_item_run cat (L : node_id) item w :
  L < length (document w) ->
  render_item cat (Some L) item w
  = (Normal tt,
     set_document
       (alter (add_children [Ref (length (document w))]) L (document w)
        ++ item_elements cat (length (document w)) [item]) w).
Proof.
  intros HL. unfold render_item. do 5 step. step.
  rewrite <- app_assoc. cbn [app]. rewrite alter_at_end.
  step. rewrite alter_app_l by lia.
  rewrite Nat.add_1_r. reflexivity.
Qed.

(** The item loop adds the [li]s to the list in item order. *)
Lemma render_items_run cat (L : node_id) items w :
  L < length (document w) ->
  forEach items (render_item cat (Some L)) w
  = (Normal tt,
     set_document
       (alter (add_children (map Ref (li_ids (length (document w)) items)))
          L (document w)
        ++ item_elements cat (length (document w)) items) w).
Proof.
  revert w. induction items as [|item items IH]; intros w HL.
  - cbn. destruct w as [d r s u]. cbn. rewrite app_nil_r.
    rewrite list_alter_id; [reflexivity|].
    intros [t i p v o k]. unfold add_children, with_children. cbn.
    by rewrite app_nil_r.
  - cbn [forEach]. rewrite run_bind, render_item_run by done.
    rewrite IH; rewrite document_set, ?length_app, ?length_alter;
      cbn [length item_elements]; [|lia].
    rewrite set_document_twice. f_equal. f_equal.
    rewrite alter_app_l by (rewrite length_alter; lia).
    rewrite alter_add_children. rewrite <- app_assoc. cbn [app].
    replace (length (document w) + 2) with (2 + length (document w)) by lia.
    reflexivity.
Qed.

Lemma render_category_run (c : node_id) entry w :
  c < length (document w) ->
  render_category (Some c) entry w
  = (Normal tt,
     set_document
       (alter (add_children (category_children (length (document w)) entry))
          c (document w)
        ++ category_elements (length (document w)) entry) w).
Proof.
  intros Hc. destruct entry as [cat items]. unfold render_category.
  do 4 step.
  rewrite run_bind, render_items_run by (lengths; lia).
  lengths. rewrite ?set_document_twice.
  rewrite alter_last by (lengths; lia).
  repeat step.
  repeat rewrite alter_app_l by (lengths; lia).
  rewrite !alter_add_children. rewrite <- !app_assoc. cbn [app].
  unfold category_children, category_elements, fields_at. cbn [fst snd app].
  f_equal. f_equal. f_equal.
  - apply list_alter_ext; [|done]. intros e _. f_equal.
    repeat (f_equal; try lia).
  - unfold h2_element, ul_element, input_element, button_element, add_children.
    cbn [childNodes blank with_children app].
    repeat (f_equal; try lia).
Qed.

Lemma length_category_elements base entry :
  base + length (category_elements base entry) = next_base base entry.
Proof.
  unfold category_elements, next_base, fields_at. cbn [length].
  rewrite length_app, length_item_elements. cbn. lia.
Qed.

(** The category loop: the container gains six children per category,
    in the order of the entries. *)
Lemma render_catalog_run (c : node_id) entries w :
  c < length (document w) ->
  forEach entries (render_category (Some c)) w
  = (Normal tt,
     set_document
       (alter (add_children (catalog_children (length (document w)) entries))
          c (document w)
        ++ catalog_elements (length (document w)) entries) w).
Proof.
  revert w. induction entries as [|entry entries IH]; intros w Hc.
  - cbn. destruct w as [d r s u]. cbn. rewrite app_nil_r.
    rewrite list_alter_id; [reflexivity|].
    intros [t i p v o k]. unfold add_children, with_children. cbn.
    by rewrite app_nil_r.
  - cbn [forEach]. rewrite run_bind, render_category_run by done.
    rewrite IH by (lengths; lia).
    rewrite document_set, set_document_twice. f_equal. f_equal.
    rewrite length_app, length_alter, length_category_elements.
    rewrite alter_app_l by (rewrite length_alter; lia).
    rewrite alter_add_children. rewrite <- app_assoc. reflexivity.
Qed.
End Rendering.

Section Trees.
Implicit Types (d pre post : list element) (sub : node_id -> option tree).















(** Positions handed out by [find_id] are positions of the store. *)
Lemma find_id_lt x d : forall i c,
  find_id x d i = Some c -> i <= c < i + length d.
Proof.
  induction d as [|e d IH]; intros i c H; cbn in *; [done|].
  destruct (String.eqb (id_attribute e) x).
  - injection H as <-. lia.
  - apply IH in H. lia.
Qed.


End Trees.

Section Load.
Context {S : Type} (serve : request -> S -> option response * S).
Implicit Types (w : world (S := S)).

(** [load] on a response that carries a catalog, in a page that has the
    container. *)
Lemma load_run w res s' members c :
  serve data_request (remote w) = (Some res, s') ->
  payload res = Some members ->
  find_id "content" (document w) 0 = Some c ->
  load serve w
  = (Normal tt,
     {| document :=
          alter (with_children
                   (catalog_children (length (document w))
                      (Object_entries (JSON_parse_object members))))
            c (document w)
          ++ catalog_elements (length (document w))
               (Object_entries (JSON_parse_object members));
        remote := s';
        sent := sent w ++ [data_request];
        unhandled := unhandled w |}).
Proof.
  intros Hserve Hpayload Hc. apply find_id_lt in Hc as Hlt.
  unfold load. rewrite run_bind. unfold fetch at 1.
  change (request_of "/api/data" no_init) with data_request.
  rewrite Hserve. unfold requested.
  rewrite run_bind. unfold json. rewrite Hpayload.
  unfold ret at 1. rewrite run_bind. unfold getElementById at 1.
  cbn [document]. rewrite Hc. unfold set_innerHTML.
  rewrite run_update. cbn [document markup_children String.eqb].
  rewrite render_catalog_run by (cbn; rewrite length_alter; lia).
  cbn [document set_document remote sent unhandled].
  rewrite length_alter, list_alter_alter_eq.
  unfold set_document. cbn [document remote sent unhandled].
  reflexivity.
Qed.
End Load.

Section Markup.
Import HTML.

Lemma append_cons c (a b : string) : String c a +:+ b = String c (a +:+ b).
Proof. reflexivity. Qed.

Lemma append_nil_l (b : string) : "" +:+ b = b.
Proof. reflexivity. Qed.

Lemma append_assoc (a b c : string) : (a +:+ b) +:+ c = a +:+ (b +:+ c).
Proof.
  induction a as [|x a IH]; [done|]. by rewrite !append_cons, IH.
Qed.

Lemma append_nil_r (a : string) : a +:+ "" = a.
Proof. induction a as [|x a IH]; [done|]. by rewrite append_cons, IH. Qed.

Lemma tokenize_text s rest :
  plain_text s = true ->
  tokenize_from Data (s +:+ rest)
  = match tokenize_from Data rest with
    | Some ts => Some (characters s ++ ts)
    | None => None
    end.
Proof.
  induction s as [|c s IH]; intros Hs.
  - rewrite append_nil_l. by destruct (tokenize_from Data rest).
  - cbn in Hs. apply andb_prop in Hs as [Hc Hs].
    unfold text_char in Hc.
    apply andb_prop in Hc as [Hc Hamp]. apply andb_prop in Hc as [Hun Hlt].
    rewrite append_cons. cbn [tokenize_from characters app].
    unfold step, data_step.
    apply negb_true_iff in Hun. apply negb_true_iff in Hlt.
    apply negb_true_iff in Hamp. rewrite Hun, Hlt, Hamp.
    rewrite (IH Hs). by destruct (tokenize_from Data rest).
Qed.

Lemma tokenize_value t n s : forall v rest,
  plain_value s = true ->
  tokenize_from (AttributeValueDoubleQuoted t n v) (s +:+ rest)
  = tokenize_from (AttributeValueDoubleQuoted t n (v +:+ s)) rest.
Proof.
  induction s as [|c s IH]; intros v rest Hs.
  - by rewrite append_nil_l, append_nil_r.
  - cbn in Hs. apply andb_prop in Hs as [Hc Hs].
    unfold value_char in Hc.
    apply andb_prop in Hc as [Hc Hamp]. apply andb_prop in Hc as [Hun Hq].
    rewrite append_cons. cbn [tokenize_from]. unfold step.
    apply negb_true_iff in Hun. apply negb_true_iff in Hq.
    apply negb_true_iff in Hamp. rewrite Hun, Hq, Hamp.
    cbn [app]. rewrite (IH _ _ Hs). unfold snoc.
    rewrite append_assoc, append_cons, append_nil_l.
    by destruct (tokenize_from _ rest).
Qed.

Lemma build_characters s : forall ts stack kids,
  build (characters s ++ ts) stack kids
  = build ts stack
      (match s, kids with
       | EmptyString, _ => kids
       | _, Text t :: kids' => Text (t +:+ s) :: kids'
       | _, _ => Text s :: kids
       end).
Proof.
  induction s as [|c s IH]; intros ts stack kids; [done|].
  cbn [characters app build]. rewrite IH. f_equal.
  destruct s as [|c' s]; [by destruct kids as [|[]]|].
  destruct kids as [|[t|] kids]; cbn [insert_character]; try done.
  unfold snoc. by rewrite append_assoc, append_cons, append_nil_l.
Qed.

Lemma tokenize_cons st c s :
  tokenize_from st (String c s)
  = match step st c with
    | Some (ts, st') =>
        match tokenize_from st' s with
        | Some rest => Some (ts ++ rest)
        | None => None
        end
    | None => None
    end.
Proof. reflexivity. Qed.

(** Takes the tokenizer through the characters that are known. *)
Ltac tokenize_known :=
  repeat (rewrite tokenize_cons;
          match goal with
          | |- context [step ?st ?c] =>
              let v := eval vm_compute in (step st c) in
              change (step st c) with v
          end;
          cbv iota beta).

Lemma tokenize_open_href rest :
  tokenize_from Data ("<a href=" +:+ String dquote rest)
  = tokenize_from
      (AttributeValueDoubleQuoted (new_tag false "a"%char) "href" "") rest.
Proof.
  rewrite !append_cons, append_nil_l. tokenize_known.
  by destruct (tokenize_from _ rest).
Qed.


End Markup.

Section Descriptions.








End Descriptions.

(** ** Property order *)

Section PropertyOrder.
Context {V : Type}.
Implicit Types (o : object V) (members : list (string * V)).





Lemma in_insert_index n (p : string * V) l x :
  In x (insert_index n p l) <-> x = (n, p) \/ In x l.
Proof.
  induction l as [|[m' q'] l IH]; cbn.
  - intuition congruence.
  - destruct (n <? m')%N; cbn; [intuition congruence|].
    rewrite IH. intuition congruence.
Qed.

Lemma in_index_properties o k v :
  In (k, v) (map snd (index_properties o))
  <-> In (k, v) o /\ is_array_index k = true.
Proof.
  induction o as [|[k' v'] o IH]; cbn; [tauto|].
  unfold is_array_index in *. destruct (array_index k') as [n|] eqn:Hk'.
  - rewrite List.in_map_iff. split.
    + intros ([m q] & Hq & Hin). cbn in Hq. subst q.
      apply in_insert_index in Hin as [Heq|Hin].
      * injection Heq as _ -> ->. rewrite Hk'. tauto.
      * assert (In (k, v) (map snd (index_properties o))) as Hq.
        { apply List.in_map_iff. by exists (m, (k, v)). }
        apply IH in Hq. tauto.
    + intros [[Heq|Hin] Hidx].
      * injection Heq as -> ->. exists (n, (k, v)). split; [done|].
        apply in_insert_index. by left.
      * assert (In (k, v) (map snd (index_properties o))) as Hq by by apply IH.
        apply List.in_map_iff in Hq as ([m q] & Hq & Hin').
        cbn in Hq. subst q. exists (m, (k, v)). split; [done|].
        apply in_insert_index. by right.
  - rewrite IH. split; [tauto|].
    intros [[Heq|Hin] Hidx]; [|tauto].
    injection Heq as -> ->. by rewrite Hk' in Hidx.
Qed.

Lemma in_named_properties o k v :
  In (k, v) (named_properties o) <-> In (k, v) o /\ is_array_index k = false.
Proof.
  induction o as [|[k' v'] o IH]; cbn; [tauto|].
  destruct (is_array_index k') eqn:Hk'.
  - rewrite IH. split; [tauto|].
    intros [[Heq|Hin] Hidx]; [|tauto].
    injection Heq as -> ->. by rewrite Hk' in Hidx.
  - cbn. rewrite IH. split; [|tauto].
    intros [Heq|[Hin Hidx]]; [|tauto].
    injection Heq as -> ->. tauto.
Qed.

(** [Object.entries] reorders the properties and neither drops nor
    adds one. *)
Lemma in_Object_entries o k v :
  In (k, v) (Object_entries o) <-> In (k, v) o.
Proof.
  unfold Object_entries.
  rewrite List.in_app_iff, in_index_properties, in_named_properties.
  destruct (is_array_index k); intuition congruence.
Qed.
End PropertyOrder.

Section Bodies.
Import API.

Lemma unquote_quote_char c : forall s acc,
  unquote (quote_char c +:+ s) acc = unquote s (snoc acc c).
Proof.
  destruct c as [[] [] [] [] [] [] [] []]; intros s acc; reflexivity.
Qed.

Lemma unquote_quote_chars v : forall acc rest,
  unquote (quote_chars v +:+ String dquote rest) acc = Some (acc +:+ v, rest).
Proof.
  induction v as [|c v IH]; intros acc rest.
  - cbn [quote_chars]. rewrite append_nil_l, append_nil_r. reflexivity.
  - cbn [quote_chars]. rewrite append_assoc, unquote_quote_char, IH.
    unfold snoc. by rewrite append_assoc, append_cons, append_nil_l.
Qed.

Lemma strip_prefix_append p s : strip_prefix p (p +:+ s) = Some s.
Proof.
  induction p as [|a p IH]; [done|].
  rewrite append_cons. cbn. by rewrite Ascii.eqb_refl.
Qed.

Lemma strip_member pfx k v tail :
  strip_prefix (pfx +:+ QuoteJSONString k +:+ ":" +:+ String dquote "")
    (pfx +:+ QuoteJSONString k +:+ ":" +:+ QuoteJSONString v +:+ tail)
  = Some (quote_chars v +:+ String dquote tail).
Proof.
  generalize (QuoteJSONString k). intros q.
  replace (pfx +:+ q +:+ ":" +:+ QuoteJSONString v +:+ tail)
    with ((pfx +:+ q +:+ ":" +:+ String dquote "")
          +:+ (quote_chars v +:+ String dquote tail)).
  - apply strip_prefix_append.
  - unfold QuoteJSONString.
    rewrite !append_assoc, !append_cons, !append_nil_l.
    by rewrite !append_assoc, !append_cons, !append_nil_l.
Qed.

(** The server reads back the members the client wrote. *)
Lemma read_member first k v keys tail :
  read_members first (k :: keys)
    ((if first then "{" else ",") +:+ QuoteJSONString k +:+ ":"
     +:+ QuoteJSONString v +:+ tail)
  = match read_members false keys tail with
    | Some vs => Some (v :: vs)
    | None => None
    end.
Proof.
  cbn [read_members]. rewrite strip_member, unquote_quote_chars.
  by rewrite append_nil_l.
Qed.

Lemma read_name n :
  read_members true ["name"] (JSON_stringify [("name", n)]) = Some [n].
Proof.
  unfold JSON_stringify.
  change (Object_entries [("name", n)]) with [("name", n)].
  cbn [join_members]. rewrite !append_assoc.
  by rewrite read_member.
Qed.

Lemma read_category_name c n :
  read_members true ["category"; "name"]
    (JSON_stringify [("category", c); ("name", n)])
  = Some [c; n].
Proof.
  unfold JSON_stringify.
  change (Object_entries [("category", c); ("name", n)])
    with [("category", c); ("name", n)].
  cbn [join_members]. rewrite !append_assoc.
  by rewrite (read_member true), (read_member false).
Qed.

Lemma read_category_name_url c n u :
  read_members true ["category"; "name"; "url"]
    (JSON_stringify [("category", c); ("name", n); ("url", u)])
  = Some [c; n; u].
Proof.
  unfold JSON_stringify.
  change (Object_entries [("category", c); ("name", n); ("url", u)])
    with [("category", c); ("name", n); ("url", u)].
  cbn [join_members]. rewrite !append_assoc.
  by rewrite (read_member true), !(read_member false).
Qed.
End Bodies.

Section LoadCases.
Context {S : Type} (serve : request -> S -> option response * S).
Implicit Types (w : world (S := S)).

Lemma run_fetch {B} u i (k : response -> M B) w :
  (fetch serve u i ≫= k) w
  = match serve (request_of u i) (remote w) with
    | (Some res, s1) => k res (requested (request_of u i) s1 w)
    | (None, s1) => (Throw NetworkFailure, requested (request_of u i) s1 w)
    end.
Proof.
  rewrite run_bind. unfold fetch.
  by destruct (serve (request_of u i) (remote w)) as [[res|] s1].
Qed.

(** Every way [load] can go. *)
Lemma load_cases w :
  load serve w
  = match serve data_request (remote w) with
    | (None, s1) => (Throw NetworkFailure, requested data_request s1 w)
    | (Some res, s1) =>
        match payload res with
        | None => (Throw SyntaxError, requested data_request s1 w)
        | Some members =>
            match find_id "content" (document w) 0 with
            | None => (Throw TypeError, requested data_request s1 w)
            | Some c =>
                (Normal tt,
                 set_document
                   (rendered (document w) c
                      (Object_entries (JSON_parse_object members)))
                   (requested data_request s1 w))
            end
        end
    end.
Proof.
  destruct (serve data_request (remote w)) as [[res|] s1] eqn:Hserve.
  - destruct (payload res) as [members|] eqn:Hpayload.
    + destruct (find_id "content" (document w) 0) as [c|] eqn:Hc.
      * by rewrite (load_run serve w res s1 members c).
      * unfold load. rewrite run_fetch.
        change (request_of "/api/data" no_init) with data_request.
        rewrite Hserve. unfold json. rewrite Hpayload.
        rewrite run_bind. unfold ret at 1. rewrite run_bind.
        unfold getElementById at 1. cbn [document requested]. by rewrite Hc.
    + unfold load. rewrite run_fetch.
      change (request_of "/api/data" no_init) with data_request.
      rewrite Hserve. unfold json. by rewrite Hpayload.
  - unfold load. rewrite run_fetch.
    change (request_of "/api/data" no_init) with data_request.
    by rewrite Hserve.
Qed.

Lemma sent_load w : sent (snd (load serve w)) = sent w ++ [data_request].
Proof.
  rewrite load_cases.
  destruct (serve data_request (remote w)) as [[res|] s1]; [|done].
  destruct (payload res); [|done].
  by destruct (find_id "content" (document w) 0).
Qed.



End LoadCases.

Section LoadTheorems.
Context {S : Type} (serve : request -> S -> option response * S).
Implicit Types (w : world (S := S)).


(** C4. When the fetch of [/api/data] brings no response, or a body
    that is not JSON, [load] throws: nothing catches the failure, the
    document is left as it was, blank if it was blank, with no notice
    added, and the rejection stays unhandled in [window.onload]. *)
Theorem load_failure_unhandled w r s1 :
  serve data_request (remote w) = (r, s1) ->
  match r with None => True | Some res => payload res = None end ->
  let e := match r with None => NetworkFailure | Some _ => SyntaxError end in
  load serve w = (Throw e, requested data_request s1 w)
  /\ document (snd (load serve w)) = document w
  /\ shown "content" (document (snd (load serve w)))
     = shown "content" (document w)
  /\ unhandled (snd (window_onload serve w)) = unhandled w ++ [e]
  /\ document (snd (window_onload serve w)) = document w.
Proof.
  intros Hserve Hr e.
  assert (Hload : load serve w = (Throw e, requested data_request s1 w)).
  { rewrite load_cases, Hserve. destruct r as [res|]; [|done].
    by rewrite Hr. }
  unfold window_onload, unawaited. by rewrite Hload.
Qed.
End LoadTheorems.


(** The witness of C4: the first load of a page that is offline. *)
Lemma load_failure_unhandled_witness :
  load offline (sample_world tt)
  = (Throw NetworkFailure, requested data_request tt (sample_world tt))
  /\ unhandled (snd (window_onload offline (sample_world tt))) = [NetworkFailure].
Proof.
  destruct (load_failure_unhandled offline (sample_world tt) None tt eq_refl I)
    as (H1 & _ & _ & H2 & _).
  split; [exact H1 | exact H2].
Defined.

Section Freshness.










End Freshness.

Section Clearing.
Context {S : Type} (serve : request -> S -> option response * S).
Implicit Types (w : world (S := S)).

End Clearing.

Section ParsedMembers.
Context {V : Type}.
Implicit Types (o : object V) (members : list (string * V)).







End ParsedMembers.


Section Layout.
Context {S : Type} (serve : request -> S -> option response * S).
Implicit Types (w : world (S := S)).

End Layout.



(** C1, at the failing input: an item whose name is markup. The link of
    its row is labelled [x], and the name as fetched is nowhere on the
    page; the category name, set through [textContent], is shown as
    fetched. *)
Theorem item_name_read_as_markup :
  display (document (snd (load read_only
             (sample_world [("<i>A</i>", [{| name := "<b>x</b>"; url := "u" |}])]))))
  = Some [ Heading "<i>A</i>";
           ItemList [{| row_link := Some {| label := "x"; href := "u";
                                            target := "_blank" |};
                        row_control := "Delete" |}];
           Field "Name"; Field "URL"; Control "Add";
           Control "Delete Category" ].
Proof. vm_compute. reflexivity. Qed.

Section Handlers.
Context {S : Type} (serve : request -> S -> option response * S).
Implicit Types (w : world (S := S)).








Lemma sent_unawaited (m : M unit) w :
  sent (snd (unawaited m w)) = sent (snd (m w)).
Proof. unfold unawaited. by destruct (m w) as [[] ?]. Qed.


End Handlers.


Section Mutations.
Context {S : Type} (serve : request -> S -> option response * S).
Implicit Types (w : world (S := S)).

Lemma find_id_lookup x d c :
  find_id x d 0 = Some c -> exists e, d !! c = Some e.
Proof.
  intros H. apply find_id_lt in H.
  destruct (lookup_lt_is_Some_2 d c) as [e He]; [lia|]. by exists e.
Qed.

Lemma run_getElementById {B} x (k : reference -> M B) w :
  (getElementById x ≫= k) w = k (find_id x (document w) 0) w.
Proof. reflexivity. Qed.

Lemma run_get_value {B} i e (k : string -> M B) w :
  document w !! i = Some e ->
  (get_value (Some i) ≫= k) w = k (value e) w.
Proof.
  intros H. unfold mbind, M_bind, bind, get_value.
  by rewrite H.
Qed.

Lemma addCategory_run w i e :
  find_id "new-cat" (document w) 0 = Some i ->
  document w !! i = Some e ->
  addCategory serve w
  = match serve (json_post "/api/add_category" [("name", value e)]) (remote w) with
    | (Some _, s1) =>
        unawaited (load serve)
          (set_document (alter (with_value "") i (document w))
             (requested (json_post "/api/add_category" [("name", value e)])
                s1 w))
    | (None, s1) =>
        (Throw NetworkFailure,
         requested (json_post "/api/add_category" [("name", value e)]) s1 w)
    end.
Proof.
  intros Hi He. unfold addCategory.
  rewrite run_getElementById, Hi, (run_get_value _ _ _ _ He), run_fetch.
  change (request_of "/api/add_category" (post [("name", value e)]))
    with (json_post "/api/add_category" [("name", value e)]).
  destruct (serve _ (remote w)) as [[res|] s1]; [|done].
  rewrite run_getElementById. cbn [document requested]. rewrite Hi.
  unfold set_value. by rewrite run_update.
Qed.


End Mutations.





(** ** Deleting items, against the API *)

Section DeleteItem.
Implicit Types (w : world (S := API.state)) (s : API.state).









End DeleteItem.



(** * Further properties of the controller *)

(** ** Failures of the refresh *)

Section Refresh.
Context {S : Type} (serve : request -> S -> option response * S).
Implicit Types (w : world (S := S)).




(** Every mutation, once its request is known. *)
Lemma perform_run m w req :
  specified_request m (document w) = Some req ->
  perform serve m w
  = match serve req (remote w) with
    | (Some _, s1) =>
        unawaited (load serve)
          (set_document (after_submit m (document w)) (requested req s1 w))
    | (None, s1) => (Throw NetworkFailure, requested req s1 w)
    end.
Proof.
  intros Hreq. destruct m as [|n|ca n u|ca n]; cbn in Hreq.
  - destruct (find_id "new-cat" (document w) 0) as [i|] eqn:Hi; [|done].
    destruct (document w !! i) as [e|] eqn:He; [|done].
    injection Hreq as <-. cbn [perform after_submit]. rewrite Hi.
    by apply addCategory_run.
  - injection Hreq as <-. cbn [perform after_submit]. unfold deleteCategory.
    rewrite run_fetch. fold (json_post "/api/delete_category" [("name", n)]).
    by destruct (serve _ (remote w)) as [[res|] s1]; [destruct w|].
  - injection Hreq as <-. cbn [perform after_submit]. unfold addItem.
    rewrite run_fetch.
    fold (json_post "/api/add_item"
            [("category", ca); ("name", n); ("url", u)]).
    by destruct (serve _ (remote w)) as [[res|] s1]; [destruct w|].
  - injection Hreq as <-. cbn [perform after_submit]. unfold deleteItem.
    rewrite run_fetch.
    fold (json_post "/api/delete_item" [("category", ca); ("name", n)]).
    by destruct (serve _ (remote w)) as [[res|] s1]; [destruct w|].
Qed.

(** X1. When the response carries a catalog but the page has no element
    with the id [content], [load] throws a [TypeError] at the write to
    [container.innerHTML]: the [GET] has been sent, nothing is created
    and the document is as it was; under [window.onload] the rejection
    stays unhandled. *)
Theorem load_without_container w res s1 members :
  serve data_request (remote w) = (Some res, s1) ->
  payload res = Some members ->
  find_id "content" (document w) 0 = None ->
  load serve w = (Throw TypeError, requested data_request s1 w)
  /\ sent (snd (load serve w)) = sent w ++ [data_request]
  /\ document (snd (load serve w)) = document w
  /\ unhandled (snd (window_onload serve w)) = unhandled w ++ [TypeError].
Proof.
  intros Hserve Hpayload Hc.
  assert (H : load serve w = (Throw TypeError, requested data_request s1 w)).
  { by rewrite load_cases, Hserve, Hpayload, Hc. }
  unfold window_onload, unawaited. by rewrite H.
Qed.


(** X3. The status of the response to [GET /api/data] is never looked
    at: two responses with the same body, whatever their statuses, are
    rendered alike. *)
Theorem load_ignores_status (serve' : request -> S -> option response * S)
    w res res' s1 :
  serve data_request (remote w) = (Some res, s1) ->
  serve' data_request (remote w) = (Some res', s1) ->
  payload res = payload res' ->
  load serve w = load serve' w.
Proof.
  intros H H' Hp. by rewrite !load_cases, H, H', Hp.
Qed.


End Refresh.

(** The witness of X1: the first load of a page without the container. *)
Lemma load_without_container_witness :
  load read_only (bare_world [("A", [])])
  = (Throw TypeError, requested data_request [("A", [])] (bare_world [("A", [])])).
Proof.
  exact (proj1 (load_without_container read_only (bare_world [("A", [])])
                  {| status := 200; payload := Some [("A", [])] |}
                  [("A", [])] [("A", [])] eq_refl eq_refl eq_refl)).
Defined.


(** The witness of X3: the catalog under a 200 and under a 500. *)
Lemma load_ignores_status_witness :
  load read_only (sample_world [("A", [])])
  = load failing_with_catalog (sample_world [("A", [])]).
Proof.
  exact (load_ignores_status read_only failing_with_catalog
           (sample_world [("A", [])])
           {| status := 200; payload := Some [("A", [])] |}
           {| status := 500; payload := Some [("A", [])] |}
           [("A", [])] eq_refl eq_refl eq_refl).
Defined.



(** ** Loads in flight *)

Section InFlight.
Context {S : Type} (serve : request -> S -> option response * S).
Implicit Types (w : world (S := S)).


End InFlight.


(** ** What every rendering holds *)

Section Sections.
Context {S : Type} (serve : request -> S -> option response * S).
Implicit Types (w : world (S := S)).








Lemma plain_items cat items : forall base,
  Forall button_or_plain (item_elements cat base items).
Proof.
  induction items as [|item items IH]; intros base; [constructor|].
  cbn [item_elements]. constructor; [|constructor; [|apply IH]].
  - split; [cbn; tauto|]. cbn. split; [discriminate|done].
  - split; [cbn; tauto|]. cbn. split; [discriminate|intros H; by destruct H].
Qed.

Lemma plain_catalog_elements entries : forall base,
  Forall button_or_plain (catalog_elements base entries).
Proof.
  induction entries as [|entry entries IH]; intros base; [constructor|].
  cbn [catalog_elements]. apply Forall_app_2; [|apply IH].
  unfold category_elements.
  constructor; [split; [cbn; tauto|cbn; split; [discriminate|done]]|].
  constructor; [split; [cbn; tauto|cbn; split; [discriminate|done]]|].
  apply Forall_app_2; [apply plain_items|].
  repeat constructor; cbn; try tauto; try discriminate;
    intros H; by destruct H.
Qed.

(** X9. Of the elements a [load] creates, the buttons carry a handler
    and nothing else does: every created element is a heading, a list,
    a row, a field or a button, its [onclick] is set exactly when it is
    a button, and a click on one that is no button sends nothing and
    changes nothing. *)
Theorem load_binds_buttons_only w res s1 members c :
  serve data_request (remote w) = (Some res, s1) ->
  payload res = Some members ->
  find_id "content" (document w) 0 = Some c ->
  let w1 := snd (load serve w) in
  forall i e,
    length (document w) <= i ->
    document w1 !! i = Some e ->
    button_or_plain e
    /\ (tagName e <> "button" -> click serve i w1 = (Normal tt, w1)).
Proof.
  intros Hserve Hpayload Hc w1 i e Hi He.
  assert (Hplain : button_or_plain e).
  { unfold w1 in He. rewrite load_cases, Hserve, Hpayload, Hc in He.
    cbn [snd document set_document] in He. unfold rendered in He.
    rewrite lookup_app_r in He by (rewrite length_alter; lia).
    eapply Forall_lookup_1; [apply plain_catalog_elements|exact He]. }
  split; [exact Hplain|].
  intros Htag. apply Hplain in Htag. unfold click. by rewrite He, Htag.
Qed.




End Sections.



(** The witness of X9: a click on the heading of the rendered category. *)
Lemma load_binds_buttons_only_witness :
  click read_only 5 (snd (load read_only (sample_world [("A", [])])))
  = (Normal tt, snd (load read_only (sample_world [("A", [])]))).
Proof.
  refine (proj2
    (load_binds_buttons_only read_only (sample_world [("A", [])])
       {| status := 200; payload := Some [("A", [])] |}
       [("A", [])] [("A", [])] 3 eq_refl eq_refl eq_refl
       5 (h2_element "A") _ eq_refl) _).
  - cbn. lia.
  - discriminate.
Defined.


(** ** The parsed response *)

Section Parsed.
Context {V : Type}.
Implicit Types (o : object V) (members : list (string * V)).

Lemma insert_index_perm n (p : string * V) l :
  insert_index n p l ≡ₚ (n, p) :: l.
Proof.
  induction l as [|[m q] l IH]; cbn; [done|].
  destruct (n <? m)%N; [done|]. rewrite IH. apply perm_swap.
Qed.

(** [Object.entries] lists every property once. *)
Lemma Object_entries_perm o : Object_entries o ≡ₚ o.
Proof.
  unfold Object_entries. induction o as [|[k v] o IH]; [done|].
  cbn [index_properties named_properties]. unfold is_array_index.
  destruct (array_index k) as [n|].
  - rewrite insert_index_perm. cbn [map snd app]. by rewrite IH.
  - rewrite <- Permutation_middle. by rewrite IH.
Qed.

Lemma keys_CreateDataProperty o key (v : V) k :
  In k (map fst (CreateDataProperty o key v)) <-> In k (map fst o) \/ k = key.
Proof.
  induction o as [|[k' w] o IH]; cbn; [intuition|].
  destruct (String.eqb_spec k' key) as [->|Hne]; cbn; [intuition|].
  rewrite IH. tauto.
Qed.

Lemma NoDup_CreateDataProperty o key (v : V) :
  NoDup (map fst o) -> NoDup (map fst (CreateDataProperty o key v)).
Proof.
  induction o as [|[k w] o IH]; intros Hnd; cbn.
  - apply NoDup_singleton.
  - cbn in Hnd. apply NoDup_cons in Hnd as [Hk Hnd].
    destruct (String.eqb_spec k key) as [->|Hne]; cbn.
    + by apply NoDup_cons.
    + apply NoDup_cons. split; [|by apply IH].
      rewrite list_elem_of_In, keys_CreateDataProperty.
      rewrite list_elem_of_In in Hk. intros [H| ->]; tauto.
Qed.

Lemma fold_CreateDataProperty_keys members : forall o,
  NoDup (map fst o) ->
  let o' := fold_left (fun o m => CreateDataProperty o (fst m) (snd m)) members o in
  NoDup (map fst o')
  /\ forall k, In k (map fst o') <-> In k (map fst o) \/ In k (map fst members).
Proof.
  induction members as [|[key v] members IH]; intros o Hnd; cbn.
  - split; [done|]. tauto.
  - destruct (IH (CreateDataProperty o key v)
                (NoDup_CreateDataProperty o key v Hnd)) as [H1 H2].
    split; [exact H1|]. intros k. rewrite H2, keys_CreateDataProperty.
    intuition congruence.
Qed.

Lemma CreateDataProperty_sets o key (v : V) :
  In (key, v) (CreateDataProperty o key v).
Proof.
  induction o as [|[k w] o IH]; cbn; [tauto|].
  destruct (String.eqb_spec k key) as [->|Hne]; cbn; tauto.
Qed.

Lemma CreateDataProperty_keeps o key (v : V) k x :
  k <> key -> In (k, x) o -> In (k, x) (CreateDataProperty o key v).
Proof.
  intros Hne. induction o as [|[k' w] o IH]; cbn; [tauto|].
  destruct (String.eqb_spec k' key) as [->|Hne']; cbn.
  - intros [[= -> ->]|H]; [done|tauto].
  - intros [H|H]; [tauto|]. right. by apply IH.
Qed.

Lemma fold_CreateDataProperty_keeps members : forall o k x,
  ~ In k (map fst members) ->
  In (k, x) o ->
  In (k, x) (fold_left (fun o m => CreateDataProperty o (fst m) (snd m)) members o).
Proof.
  induction members as [|[key v] members IH]; intros o k x Hk Hin; [done|].
  cbn in *. apply IH; [tauto|]. apply CreateDataProperty_keeps; [|done].
  intros ->. tauto.
Qed.

(** In a list without two pairs of the same key, a key has one value. *)
Lemma NoDup_keys_value (l : list (string * V)) k x y :
  NoDup (map fst l) -> In (k, x) l -> In (k, y) l -> x = y.
Proof.
  induction l as [|[k' w] l IH]; intros Hnd Hx Hy; [done|].
  cbn in Hnd. apply NoDup_cons in Hnd as [Hk Hnd].
  rewrite list_elem_of_In in Hk.
  destruct Hx as [[= -> ->]|Hx], Hy as [[= <-]|Hy]; try done.
  - exfalso. apply Hk. apply List.in_map_iff. by exists (k, y).
  - exfalso. apply Hk. apply List.in_map_iff. by exists (k', x).
  - by apply IH.
Qed.

(** X11. Whatever the members of the response, names given twice
    included, the entries [load] goes through hold every name of the
    response once and no other name, and under a name the value of its
    last member: a category named twice gets one section, with the
    items of its last occurrence. *)
Theorem parsed_entries_distinct members :
  let entries := Object_entries (JSON_parse_object members) in
  NoDup (map fst entries)
  /\ (forall k, In k (map fst entries) <-> In k (map fst members))
  /\ (forall pre k v post,
        members = pre ++ (k, v) :: post ->
        ~ In k (map fst post) ->
        forall v', In (k, v') entries <-> v' = v).
Proof.
  intros entries.
  destruct (fold_CreateDataProperty_keys members [] (NoDup_nil_2 (A := string)))
    as [Hnd Hkeys].
  fold (JSON_parse_object members) in Hnd, Hkeys.
  assert (Hperm : map fst entries ≡ₚ map fst (JSON_parse_object members)).
  { unfold entries. by rewrite Object_entries_perm. }
  split; [by rewrite Hperm|]. split.
  { intros k. rewrite <- !list_elem_of_In, Hperm, !list_elem_of_In, Hkeys.
    cbn. tauto. }
  intros pre k v post -> Hk v'.
  assert (Hin : In (k, v) (JSON_parse_object (pre ++ (k, v) :: post))).
  { unfold JSON_parse_object. rewrite fold_left_app. cbn [fold_left fst snd].
    apply fold_CreateDataProperty_keeps; [done|].
    apply CreateDataProperty_sets. }
  unfold entries. rewrite in_Object_entries. split.
  - intros Hv'. exact (NoDup_keys_value _ k v' v Hnd Hv' Hin).
  - by intros ->.
Qed.

(** X12. [Object.entries] only reorders: the entries [load] goes
    through are the properties of the parsed object, each once, so
    there are as many sections as the object has properties. *)
Theorem Object_entries_reorders o :
  Object_entries o ≡ₚ o
  /\ length (Object_entries o) = length o
  /\ forall p, In p (Object_entries o) <-> In p o.
Proof.
  pose proof (Object_entries_perm o) as H.
  split; [exact H|]. split; [by rewrite H|].
  intros p. by rewrite <- !list_elem_of_In, H.
Qed.
End Parsed.

(** The witness of X11: a response that names the category [A] twice. *)
Lemma parsed_entries_distinct_witness :
  In ("A", [{| name := "i2"; url := "u2" |}])
    (Object_entries
       (JSON_parse_object
          [ ("A", [{| name := "i1"; url := "u1" |}]); ("B", []);
            ("A", [{| name := "i2"; url := "u2" |}]) ])).
Proof.
  apply (proj2 (proj2
           (parsed_entries_distinct
              [ ("A", [{| name := "i1"; url := "u1" |}]); ("B", []);
                ("A", [{| name := "i2"; url := "u2" |}]) ]))
           [("A", [{| name := "i1"; url := "u1" |}]); ("B", [])]
           "A" [{| name := "i2"; url := "u2" |}] [] eq_refl).
  - cbn. tauto.
  - reflexivity.
Defined.

(** ** The requests of the mutations *)

Section Requests.
Context {S : Type} (serve : request -> S -> option response * S).
Implicit Types (w : world (S := S)).

(** What a mutation sends, whether its request can be built or not. *)
Lemma sent_perform m w :
  sent (snd (perform serve m w))
  = sent w
    ++ match specified_request m (document w) with
       | Some req =>
           req :: match fst (serve req (remote w)) with
                  | Some _ => [data_request]
                  | None => []
                  end
       | None => []
       end.
Proof.
  destruct (specified_request m (document w)) as [req|] eqn:Hreq.
  - rewrite (perform_run serve m w req Hreq).
    destruct (serve req (remote w)) as [[res|] s1]; [|done].
    rewrite sent_unawaited, sent_load. cbn. by rewrite <- app_assoc.
  - rewrite app_nil_r. destruct m; try done. cbn in Hreq.
    cbn [perform]. unfold addCategory. rewrite run_getElementById.
    destruct (find_id "new-cat" (document w) 0) as [i|]; [|done].
    destruct (document w !! i) as [e|] eqn:He; [done|].
    rewrite run_bind. unfold get_value. by rewrite He.
Qed.

Lemma json_post_name u n n' :
  json_post u [("name", n)] = json_post u [("name", n')] -> n = n'.
Proof.
  intros H. apply (f_equal (read_body ["name"])) in H.
  unfold read_body, json_post in H. cbn [body] in H.
  rewrite !read_name in H. by injection H.
Qed.

Lemma json_post_category_name u c n c' n' :
  json_post u [("category", c); ("name", n)]
  = json_post u [("category", c'); ("name", n')] ->
  c = c' /\ n = n'.
Proof.
  intros H. apply (f_equal (read_body ["category"; "name"])) in H.
  unfold read_body, json_post in H. cbn [body] in H.
  rewrite !read_category_name in H. by injection H.
Qed.

Lemma json_post_category_name_url x c n u c' n' u' :
  json_post x [("category", c); ("name", n); ("url", u)]
  = json_post x [("category", c'); ("name", n'); ("url", u')] ->
  c = c' /\ n = n' /\ u = u'.
Proof.
  intros H. apply (f_equal (read_body ["category"; "name"; "url"])) in H.
  unfold read_body, json_post in H. cbn [body] in H.
  rewrite !read_category_name_url in H. by injection H.
Qed.

(** X13. What a mutation sends tells which mutation it is, and with
    which arguments: two different calls made from the same page never
    send the same requests. Whatever characters a name or a url holds,
    quotes, commas and braces included, the body written for it is the
    body of no other name or url. *)
Theorem requests_tell_mutations_apart m1 m2 w :
  m1 <> m2 ->
  sent (snd (perform serve m1 w)) <> sent (snd (perform serve m2 w)).
Proof.
  intros Hne H. apply Hne. clear Hne. revert H.
  rewrite !sent_perform. intros H. apply app_inv_head in H.
  destruct m1 as [|n1|c1 n1 u1|c1 n1], m2 as [|n2|c2 n2 u2|c2 n2];
    try reflexivity; cbn [specified_request] in H;
    repeat match type of H with
           | context [find_id ?x ?d ?i] => destruct (find_id x d i)
           | context [@lookup _ _ _ _ ?i ?d] => destruct (d !! i)
           end;
    try discriminate H.
  - apply (f_equal head) in H. cbn [head] in H. apply (inj Some) in H.
    by apply json_post_name in H as ->.
  - apply (f_equal head) in H. cbn [head] in H. apply (inj Some) in H.
    by apply json_post_category_name_url in H as (-> & -> & ->).
  - apply (f_equal head) in H. cbn [head] in H. apply (inj Some) in H.
    by apply json_post_category_name in H as (-> & ->).
Qed.

Lemma all_chars_append p a b :
  all_chars p (a +:+ b) = all_chars p a && all_chars p b.
Proof.
  induction a as [|c a IH]; [done|].
  rewrite append_cons. cbn [all_chars]. by rewrite IH, andb_assoc.
Qed.

Lemma printable_quote_char c : all_chars printable (quote_char c) = true.
Proof. destruct c as [[] [] [] [] [] [] [] []]; reflexivity. Qed.

Lemma printable_quote_chars s : all_chars printable (quote_chars s) = true.
Proof.
  induction s as [|c s IH]; [done|].
  cbn [quote_chars]. by rewrite all_chars_append, printable_quote_char, IH.
Qed.

Lemma printable_QuoteJSONString s :
  all_chars printable (QuoteJSONString s) = true.
Proof.
  unfold QuoteJSONString. cbn [all_chars].
  by rewrite all_chars_append, printable_quote_chars.
Qed.

Lemma printable_join_members ms :
  all_chars printable (join_members ms) = true.
Proof.
  induction ms as [|[k v] ms IH]; [done|].
  cbn [join_members]. destruct ms as [|m ms].
  - by rewrite !all_chars_append, !printable_QuoteJSONString.
  - by rewrite !all_chars_append, !printable_QuoteJSONString, IH.
Qed.

(** X14. The body of a request is one line of printable text: whatever
    the names and urls hold, line breaks and other control characters
    included, [JSON.stringify] writes no character below the space. *)
Theorem request_body_printable u o :
  exists text,
    body (json_post u o) = Some text /\ all_chars printable text = true.
Proof.
  exists (JSON_stringify o). split; [done|]. unfold JSON_stringify.
  by rewrite !all_chars_append, printable_join_members.
Qed.
End Requests.

(** The witness of X13: a comma moved from the category to the name. *)
Lemma requests_tell_mutations_apart_witness :
  DeleteItem "a,b" "c" <> DeleteItem "a" "b,c"
  /\ sent (snd (perform offline (DeleteItem "a,b" "c") (sample_world tt)))
     <> sent (snd (perform offline (DeleteItem "a" "b,c") (sample_world tt))).
Proof.
  assert (H : DeleteItem "a,b" "c" <> DeleteItem "a" "b,c") by discriminate.
  split; [exact H|].
  exact (requests_tell_mutations_apart offline _ _ (sample_world tt) H).
Defined.

(** ** Markup in a url *)

Section Retargeting.
Import HTML.

(** Takes the tokenizer through the characters that are known. *)
Ltac tokenize_through :=
  repeat (rewrite tokenize_cons;
          match goal with
          | |- context [step ?st ?c] =>
              let v := eval vm_compute in (step st c) in
              change (step st c) with v
          end;
          cbv iota beta).

Lemma tokenize_own_target u rest :
  tokenize_from
    (AttributeValueDoubleQuoted (new_tag false "a"%char) "href" u)
    (String dquote (" target=" +:+ String dquote rest))
  = tokenize_from
      (AttributeValueDoubleQuoted
         {| is_end := false; tag_name := "a"; attributes := [("href", u)] |}
         "target" "")
      rest.
Proof.
  rewrite !append_cons, !append_nil_l. tokenize_through.
  by destruct (tokenize_from _ rest).
Qed.

Lemma tokenize_second_target u v rest :
  tokenize_from
    (AttributeValueDoubleQuoted
       {| is_end := false; tag_name := "a"; attributes := [("href", u)] |}
       "target" v)
    (String dquote
       (" target=" +:+ String dquote ("_blank" +:+ String dquote (">" +:+ rest))))
  = match tokenize_from Data rest with
    | Some ts => Some (StartTag "a" [("href", u); ("target", v)] :: ts)
    | None => None
    end.
Proof.
  rewrite !append_cons, !append_nil_l. tokenize_through.
  by destruct (tokenize_from _ rest).
Qed.

Lemma parse_retargeted u v n :
  plain_value u = true ->
  plain_value v = true ->
  plain_text n = true ->
  parse_fragment (link_markup {| name := n; url := retargeted u v |})
  = Some [Element "a" [("href", u); ("target", v)] (text_nodes n)].
Proof.
  intros Hu Hv Hn.
  unfold parse_fragment, tokenize, link_markup, retargeted, quot.
  cbn [url name]. rewrite !append_assoc.
  repeat rewrite (append_cons dquote "" _), append_nil_l.
  rewrite tokenize_open_href, (tokenize_value _ _ _ _ _ Hu), append_nil_l.
  rewrite tokenize_own_target, (tokenize_value _ _ _ _ _ Hv), append_nil_l.
  rewrite tokenize_second_target, (tokenize_text _ _ Hn).
  change (tokenize_from Data "</a>") with (Some [EndTag "a"]).
  cbv iota beta. cbn [build].
  change (insertable "a" []) with true. cbv iota.
  rewrite build_characters. unfold text_nodes.
  by destruct n.
Qed.

(** X15. A url is written into the markup of the link as it is. A url
    that holds a double quote ends the [href] there, and what follows
    is read as further attributes of the link: with a [target] of its
    own after the quote, the link aims at the part before the quote
    and opens where the url says, the [_blank] of the template being
    dropped as a second [target]. *)
Theorem url_sets_link_target u v n :
  plain_value u = true ->
  plain_value v = true ->
  plain_text n = true ->
  rendered_row {| name := n; url := retargeted u v |}
  = {| row_link := Some {| label := n; href := u; target := v |};
       row_control := "Delete" |}.
Proof.
  intros Hu Hv Hn. unfold rendered_row, link_of.
  rewrite (parse_retargeted u v n Hu Hv Hn). cbn.
  unfold text_nodes. destruct (String.eqb_spec n "") as [->|]; [done|].
  cbn. by rewrite append_nil_r.
Qed.
End Retargeting.

(** The witness of X15: a url that asks for the same window. *)
Lemma url_sets_link_target_witness :
  rendered_row {| name := "x"; url := retargeted "u" "_self" |}
  = {| row_link := Some {| label := "x"; href := "u"; target := "_self" |};
       row_control := "Delete" |}.
Proof.
  exact (url_sets_link_target "u" "_self" "x" eq_refl eq_refl eq_refl).
Defined.

(** ** Array indices *)

Section Indices.
Import Decimal DecimalString.
Local Open Scope N_scope.

(** The number a sequence of digits writes. *)
Lemma of_uint_digits d :
  N.of_uint d = DecimalPos.Unsigned.of_lu (rev d).
Proof. apply DecimalPos.Unsigned.of_uint_alt. Qed.

Lemma parse_digits_printed d : forall acc,
  parse_digits acc (NilEmpty.string_of_uint d)
  = Some (N.of_uint d + acc * 10 ^ DecimalPos.Unsigned.usize d).
Proof.
  induction d; intros acc;
    [ cbn; f_equal; lia | .. ];
    cbn [NilEmpty.string_of_uint parse_digits];
    match goal with
    | |- context [digit_of ?c] =>
        let v := eval vm_compute in (digit_of c) in
        change (digit_of c) with v
    end;
    cbv iota beta; rewrite IHd; f_equal;
    match goal with
    | |- context [N.of_uint (?f d)] => rewrite (of_uint_digits (f d))
    end;
    unfold rev; cbn [revapp];
    rewrite (DecimalPos.Unsigned.of_lu_revapp d), <- of_uint_digits;
    cbn [DecimalPos.Unsigned.of_lu DecimalPos.Unsigned.usize];
    rewrite N.pow_succ_r'; lia.
Qed.

Lemma digit_of_char c k :
  digit_of c = Some k ->
  (c = "0" \/ c = "1" \/ c = "2" \/ c = "3" \/ c = "4" \/ c = "5" \/ c = "6"
   \/ c = "7" \/ c = "8" \/ c = "9")%char.
Proof.
  destruct c as [[] [] [] [] [] [] [] []]; intros H;
    try discriminate H; intuition.
Qed.

Lemma parse_digits_digits s : forall acc m,
  parse_digits acc s = Some m -> exists d, s = NilEmpty.string_of_uint d.
Proof.
  induction s as [|c s IH]; intros acc m H.
  - by exists Nil.
  - cbn [parse_digits] in H. destruct (digit_of c) as [k|] eqn:Hc; [|done].
    apply IH in H as [d ->]. apply digit_of_char in Hc.
    destruct Hc as [->|[->|[->|[->|[->|[->|[->|[->|[->| ->]]]]]]]]].
    + by exists (D0 d).
    + by exists (D1 d).
    + by exists (D2 d).
    + by exists (D3 d).
    + by exists (D4 d).
    + by exists (D5 d).
    + by exists (D6 d).
    + by exists (D7 d).
    + by exists (D8 d).
    + by exists (D9 d).
Qed.

Lemma nzhead_head u :
  match nzhead u with D0 _ => False | _ => True end.
Proof. induction u; cbn; done. Qed.

(** A numeral in normal form, other than zero, starts with no [0]. *)
Lemma unorm_head d :
  unorm d = d -> d <> zero ->
  match d with Nil | D0 _ => False | _ => True end.
Proof.
  destruct d; try done.
  intros H Hz. rewrite DecimalFacts.unorm_D0 in H. unfold unorm in H.
  pose proof (nzhead_head d) as Hh. by destruct (nzhead d).
Qed.

Lemma array_index_numeral_pos p :
  (N.pos p <=? 4294967294) = true ->
  array_index (numeral (N.pos p)) = Some (N.pos p).
Proof.
  intros Hle. unfold numeral.
  set (d := N.to_uint (N.pos p)).
  assert (Hn : N.of_uint d = N.pos p) by apply DecimalN.Unsigned.of_to.
  assert (Hu : unorm d = d).
  { rewrite <- DecimalN.Unsigned.to_of, Hn. reflexivity. }
  assert (Hz : d <> zero) by apply DecimalPos.Unsigned.to_uint_nonzero.
  pose proof (unorm_head d Hu Hz) as Hh.
  pose proof (parse_digits_printed d 0) as Hp.
  rewrite Hn, N.mul_0_l, N.add_0_r in Hp.
  destruct d; try done; unfold NilZero.string_of_uint;
    cbn [NilEmpty.string_of_uint] in *; unfold array_index;
    match goal with
    | |- context [Ascii.eqb ?c ?c'] =>
        change (Ascii.eqb c c') with false
    end;
    cbv iota; by rewrite Hp, Hle.
Qed.

(** X16. The names [Object.entries] moves to the front are the decimal
    numerals of the integers from 0 to 4294967294 and no others: a
    name with a sign, a leading zero or a space, or the numeral of a
    larger number, keeps its place among the other names. *)
Theorem array_index_numeral key n :
  array_index key = Some n <-> key = numeral n /\ (n <= 4294967294)%N.
Proof.
  split.
  - destruct key as [|c rest]; [done|]. unfold array_index.
    destruct (Ascii.eqb_spec c "0") as [->|Hc].
    + destruct (String.eqb_spec rest "") as [->|]; [|done].
      intros [= <-]. split; [reflexivity|lia].
    + destruct (parse_digits 0 (String c rest)) as [m|] eqn:Hp; [|done].
      destruct (N.leb_spec m 4294967294) as [Hle|]; [|done].
      intros [= <-]. split; [|done].
      destruct (parse_digits_digits _ _ _ Hp) as [d Hd].
      rewrite Hd, parse_digits_printed, N.mul_0_l, N.add_0_r in Hp.
      injection Hp as <-. unfold numeral.
      rewrite DecimalN.Unsigned.to_of.
      destruct d; cbn [NilEmpty.string_of_uint] in Hd; try done;
        try (injection Hd as -> _; done); by rewrite Hd.
  - intros [-> Hle]. destruct n as [|p]; [reflexivity|].
    apply array_index_numeral_pos. by apply N.leb_le.
Qed.
End Indices.

(** ** Submitting twice *)

Section Twice.
Context {S : Type} (serve : request -> S -> option response * S).
Implicit Types (w : world (S := S)).




End Twice.

